(** * The random sampler of chocolate: [chocolate/sample/random.py]

    A shallow embedding of the class [Random] (its constructor and its
    method [next]) together with the properties of its draw sequence:
    burning of generator draws, sampling without replacement over a grid,
    identifiers of continuous draws, the counter [drawn], and the shape of
    the stored documents.

    The sampler talks to three collaborators whose code lives elsewhere:
    the generator ([numpy.random.RandomState]), the search space with its
    grid, and the database connection.  The generator is an interface
    (class [RandomState]); the space, the grid and the connection are
    modelled from their contracts. *)

From stdpp Require Import base gmap strings list sorting.
From Stdlib Require Import ZArith Lia.

Open Scope Z_scope.

(** ** Exceptions *)

Inductive exn : Set :=
  | StopIteration | KeyError | ValueError | IndexError | TypeError.

Inductive result (A : Type) : Type :=
  | Ok (a : A)
  | Raise (e : exn).
Arguments Ok {A} a.
Arguments Raise {A} e.

(** ** Values held by a document

    A document is a Python [dict] from strings to scalars.  Three kinds of
    scalars occur: a plain [int], a [numpy.int64] (what [choice] hands
    back before [int(...)] is applied) and a raw per-dimension value. *)

Inductive value (raw : Type) : Type :=
  | VInt (z : Z)
  | VInt64 (z : Z)
  | VRaw (r : raw).
Arguments VInt {raw} z.
Arguments VInt64 {raw} z.
Arguments VRaw {raw} r.

(** Python compares numbers across types: [raw_eq_int r z] is [r == z]
    for a raw scalar [r] and an [int] [z]. *)
Class Scalar (raw : Type) := { raw_eq_int : raw → Z → bool }.

(** ** The generator interface

    [rs_init] is [numpy.random.RandomState(seed)], which may raise;
    [rs_rand] is the scalar draw [rand()]; [rs_choice] is [choice(a)] on a
    list of integers, which may raise as well. *)
Class RandomState (G raw seedval : Type) := {
  rs_init : seedval → result G;
  rs_rand : G → raw * G;
  rs_choice : list Z → G → result Z * G;
}.

(** [int(sample)]: the value of a [numpy.int64] as a plain [int]. *)
Definition int (sample : Z) : Z := sample.

Definition chocolate_id : string := "_chocolate_id".

Section Sampler.
Context {raw point seedval G : Type}.
Context `{!Scalar raw} `{!RandomState G raw seedval}.

Abbreviation entry := (gmap string (value raw)).

(** Modelled from the spec: the grid ([chocolate/sample/grid.py] is not
    part of the sources at hand).  A finite, immutable enumeration: index
    [k] in [0, L) maps to one assignment, any other index is refused. *)
Definition Grid := list (list raw).

Definition grid_len (g : Grid) : Z := Z.of_nat (length g).

Definition grid_getitem (g : Grid) (k : Z) : result (list raw) :=
  if bool_decide (0 ≤ k < grid_len g) then
    match g !! Z.to_nat k with
    | Some a => Ok a
    | None => Raise IndexError
    end
  else Raise IndexError.

(** Modelled from the spec: the search space ([chocolate/space.py] is not
    part of the sources at hand).  An ordered sequence of dimension names
    whose length is the dimension count, the flag telling whether every
    dimension is discrete, the pure mapping from a raw vector to a point,
    and the enumeration that a grid built over the space exposes. *)
Record Space := mkSpace {
  names : list string;
  isdiscrete : bool;
  space_call : list raw → point;
  space_grid : Grid;
}.

Definition space_len (s : Space) : Z := Z.of_nat (length (names s)).

(** [ParameterGrid(space)], the grid built over a discrete space. *)
Definition ParameterGrid (s : Space) : Grid := space_grid s.

(** ** Objects

    Generator objects are shared by reference, so they live in the world
    under their identity; identity [numpy_random] is the process-wide
    generator behind the module [numpy.random].  A sampler is a record of
    its fields; its connection is the store of the world it is run in. *)
Definition numpy_random : nat := 0%nat.

(** Modelled from the spec: the connection (its class is not part of the
    sources at hand) holds the documents inserted so far, field
    [results]; see [count_results], [all_results] and [insert_result]
    below. *)

Record World := mkWorld {
  results : list entry;
  generators : nat → G;
  allocated : nat;
}.

Record Random := mkRandom {
  space : Space;
  random_state : nat;
  subspace_grids : option Grid;
  drawn : Z;
}.

Definition set_generator (h : nat) (g : G) (w : World) : World :=
  {| results := results w;
     generators := λ k, if bool_decide (k = h) then g else generators w k;
     allocated := allocated w |}.

Definition new_generator (g : G) (w : World) : nat * World :=
  (allocated w,
   {| results := results w;
      generators := λ k, if bool_decide (k = allocated w) then g else generators w k;
      allocated := S (allocated w) |}).

(** ** Construction

    The three shapes of the argument [random_state], told apart by
    [isinstance(random_state, numpy.random.RandomState)] and
    [random_state is None]. *)

Inductive random_state_arg : Type :=
  | ArgRandomState (h : nat)   (* an existing RandomState instance *)
  | ArgNone                    (* None *)
  | ArgSeed (v : seedval).     (* anything else *)

Definition fresh_sampler (sp : Space) (h : nat) : Random :=
  {| space := sp;
     random_state := h;
     subspace_grids := if isdiscrete sp then Some (ParameterGrid sp) else None;
     drawn := 0 |}.

(** Modelled from the spec: the base class ([chocolate/base.py] is not
    part of the sources at hand) keeps the connection and the space. *)
Definition __init__ (sp : Space) (arg : random_state_arg) (w : World)
  : result Random * World :=
  match arg with
  | ArgRandomState h => (Ok (fresh_sampler sp h), w)
  | ArgNone => (Ok (fresh_sampler sp numpy_random), w)
  | ArgSeed v =>
      match rs_init v with
      | Ok g => let '(h, w') := new_generator g w in (Ok (fresh_sampler sp h), w')
      | Raise e => (Raise e, w)
      end
  end.

(** ** The monad of a method call: the receiver and the world are threaded
    through, and an exception keeps the effects performed before it. *)
Definition M (A : Type) : Type := Random * World → result A * (Random * World).

Definition ret {A} (a : A) : M A := λ st, (Ok a, st).
Definition raise {A} (e : exn) : M A := λ st, (Raise e, st).
Definition bind {A B} (m : M A) (k : A → M B) : M B :=
  λ st, match m st with
        | (Ok a, st') => k a st'
        | (Raise e, st') => (Raise e, st')
        end.

#[global] Instance M_ret : MRet M := @ret.
#[global] Instance M_bind : MBind M := λ A B k m, bind m k.

Definition lift {A} (r : result A) : M A := λ st, (r, st).

Fixpoint for_range (n : nat) (body : M unit) : M unit :=
  match n with
  | O => ret tt
  | S n' => body ;; for_range n' body
  end.

Fixpoint for_each {A B} (f : A → M B) (l : list A) : M (list B) :=
  match l with
  | [] => ret []
  | a :: l' => b ← f a; bs ← for_each f l'; ret (b :: bs)
  end.

(** Modelled from the spec: the operations of the connection.
    [count_results] is the number of stored documents, [all_results]
    enumerates them and [insert_result] adds one; the lock is of no
    effect in a sequential run. *)
Definition count_results : M Z :=
  λ '(self, w), (Ok (Z.of_nat (length (results w))), (self, w)).
Definition all_results : M (list entry) :=
  λ '(self, w), (Ok (results w), (self, w)).
Definition insert_result (e : entry) : M unit :=
  λ '(self, w),
    (Ok tt, (self, {| results := results w ++ [e];
                      generators := generators w;
                      allocated := allocated w |})).

(** The fields of [self]. *)
Definition get_self : M Random := λ '(self, w), (Ok self, (self, w)).
Definition get_drawn : M Z := λ '(self, w), (Ok (drawn self), (self, w)).
Definition set_drawn (d : Z) : M unit :=
  λ '(self, w),
    (Ok tt, ({| space := space self; random_state := random_state self;
                subspace_grids := subspace_grids self; drawn := d |}, w)).

(** The generator [self.random_state]. *)
Fixpoint rand_seq (n : nat) (g : G) : list raw * G :=
  match n with
  | O => ([], g)
  | S n' => let '(x, g1) := rs_rand g in
            let '(xs, g2) := rand_seq n' g1 in (x :: xs, g2)
  end.

(** [rand(d0, ..., dk)] fills an array of the given shape with successive
    scalar draws (the spec counts [rand(n, m)] as [n × m] scalar draws),
    and refuses a negative dimension before drawing anything. *)
Definition rand_shape (dims : list Z) (g : G) : result (list raw) * G :=
  if forallb (λ d, bool_decide (0 ≤ d)) dims then
    let '(xs, g') := rand_seq (Z.to_nat (foldr Z.mul 1 dims)) g in (Ok xs, g')
  else (Raise ValueError, g).

Definition on_generator {A} (op : G → result A * G) : M A :=
  λ '(self, w),
    let '(r, g') := op (generators w (random_state self)) in
    (r, (self, set_generator (random_state self) g' w)).

Definition self_rand : M raw :=
  on_generator (λ g, let '(x, g') := rs_rand g in (Ok x, g')).
Definition self_rand_shape (dims : list Z) : M (list raw) :=
  on_generator (rand_shape dims).
Definition self_choice (a : list Z) : M Z :=
  on_generator (rs_choice a).

(** ** Python containers *)

(** [doc[key]] *)
Definition dict_getitem (doc : entry) (key : string) : result (value raw) :=
  match doc !! key with
  | Some v => Ok v
  | None => Raise KeyError
  end.

(** [{k : v for k, v in zip(ks, vs)}]: a later pair overrides an earlier
    one with the same key, and [zip] stops at the shorter sequence. *)
Definition dict_of_zip (ks : list string) (vs : list raw) : entry :=
  foldl (λ d kv, <[kv.1 := VRaw kv.2]> d) ∅ (zip ks vs).

(** [d.update(other)] *)
Definition dict_update (d other : entry) : entry := other ∪ d.

(** [v == x] for a stored scalar and an [int]. *)
Definition py_eq_int (v : value raw) (x : Z) : bool :=
  match v with
  | VInt z | VInt64 z => bool_decide (z = x)
  | VRaw r => raw_eq_int r x
  end.

(** [set(range(l))] *)
Definition set_range (l : Z) : gset Z := list_to_set (seqZ 0 l).

(** [a - set(b)] for a set of integers [a] and a list of scalars [b] *)
Definition set_minus (a : gset Z) (b : list (value raw)) : gset Z :=
  filter (λ x, ¬ Is_true (existsb (λ v, py_eq_int v x) b)) a.

(** [sorted(s)] *)
Definition sorted (s : gset Z) : list Z := merge_sort Z.le (elements s).

(** ** [Random.next] *)

Definition token_of (id : Z) : entry := {[ chocolate_id := VInt id ]}.

Definition next : M (entry * point) :=
  (* with self.conn.lock(): *)
  i ← count_results;
  self ← get_self;
  '(token, out) ←
    match subspace_grids self with
    | Some grids =>
        (* Sample without replacement *)
        let l := grid_len grids in
        if i >=? l then raise StopIteration else
        (* Restore state by burning numbers *)
        d ← get_drawn;
        for_range (Z.to_nat (i - d)) (self_rand ;; ret tt) ;;
        docs ← all_results;
        drawn_ids ← for_each (λ doc, lift (dict_getitem doc chocolate_id)) docs;
        let choices := sorted (set_minus (set_range l) drawn_ids) in
        sample ← self_choice choices;
        d ← get_drawn;
        set_drawn (d + (i - d + 1)) ;;
        (* Some dbs don't like numpy.int64 *)
        let token := token_of (int sample) in
        out ← lift (grid_getitem grids sample);
        ret (token, out)
    | None =>
        let token := token_of i in
        (* Restore state by burning numbers *)
        d ← get_drawn;
        self_rand_shape [space_len (space self); i - d] ;;
        (* Sample in [0, 1)^n *)
        out ← self_rand_shape [space_len (space self)];
        d ← get_drawn;
        set_drawn (d + (i - d + 1)) ;;
        ret (token, out)
    end;
  let entry0 := dict_of_zip (names (space self)) out in
  let entry1 := dict_update entry0 token in
  insert_result entry1 ;;
  ret (token, space_call (space self) out).

(** ** [next] in closed form

    What one call computes from the three things it reads: the counter
    [drawn], the documents of the connection and the state of the
    generator [self.random_state] refers to. *)

Definition burn (n : nat) (g : G) : G := (rand_seq n g).2.

Fixpoint doc_ids (docs : list entry) : result (list (value raw)) :=
  match docs with
  | [] => Ok []
  | doc :: rest =>
      match dict_getitem doc chocolate_id with
      | Raise e => Raise e
      | Ok v => match doc_ids rest with
                | Raise e => Raise e
                | Ok vs => Ok (v :: vs)
                end
      end
  end.

Definition choices_of (l : Z) (ids : list (value raw)) : list Z :=
  sorted (set_minus (set_range l) ids).

Definition entry_of (sp : Space) (out : list raw) (id : Z) : entry :=
  dict_update (dict_of_zip (names sp) out) (token_of id).

Definition next_pure (sp : Space) (grids : option Grid)
    (v : Z * list entry * G) : result (entry * point) * (Z * list entry * G) :=
  let '(d, docs, g) := v in
  let i := Z.of_nat (length docs) in
  match grids with
  | Some gr =>
      if i >=? grid_len gr then (Raise StopIteration, (d, docs, g)) else
      let g1 := burn (Z.to_nat (i - d)) g in
      match doc_ids docs with
      | Raise e => (Raise e, (d, docs, g1))
      | Ok ids =>
          match rs_choice (choices_of (grid_len gr) ids) g1 with
          | (Raise e, g2) => (Raise e, (d, docs, g2))
          | (Ok sample, g2) =>
              match grid_getitem gr sample with
              | Raise e => (Raise e, (i + 1, docs, g2))
              | Ok out =>
                  (Ok (token_of sample, space_call sp out),
                   (i + 1, docs ++ [entry_of sp out sample], g2))
              end
          end
      end
  | None =>
      if bool_decide (0 ≤ i - d) then
        let g1 := burn (Z.to_nat (space_len sp * (i - d))) g in
        let '(out, g2) := rand_seq (Z.to_nat (space_len sp)) g1 in
        (Ok (token_of i, space_call sp out),
         (i + 1, docs ++ [entry_of sp out i], g2))
      else (Raise ValueError, (d, docs, g))
  end.

Definition view (st : Random * World) : Z * list entry * G :=
  (drawn st.1, results st.2, generators st.2 (random_state st.1)).

(** What a call never touches. *)
Definition frame (st st' : Random * World) : Prop :=
  space st'.1 = space st.1 ∧
  random_state st'.1 = random_state st.1 ∧
  subspace_grids st'.1 = subspace_grids st.1 ∧
  allocated st'.2 = allocated st.2 ∧
  ∀ k, k ≠ random_state st.1 → generators st'.2 k = generators st.2 k.

(** [upd h g w w']: [w'] is [w] with generator [h] in state [g]. *)
Definition upd (h : nat) (g : G) (w w' : World) : Prop :=
  results w' = results w ∧ allocated w' = allocated w ∧
  generators w' h = g ∧ ∀ k, k ≠ h → generators w' k = generators w k.

(** ** Runs *)

(** [n] successive calls of [next] by one sampler; a call that raises
    does not stop the run. *)
Fixpoint calls (n : nat) (st : Random * World)
  : list (result (entry * point)) * (Random * World) :=
  match n with
  | O => ([], st)
  | S n' => let '(r, st1) := next st in
            let '(rs, st2) := calls n' st1 in (r :: rs, st2)
  end.

(** One sampler against a store into which others insert as well. *)
Inductive action : Type :=
  | Call
  | Insert (e : entry).

Definition act (a : action) (st : Random * World) : Random * World :=
  match a with
  | Call => (next st).2
  | Insert e => (insert_result e st).2
  end.

Fixpoint drawn_trace (acts : list action) (st : Random * World) : list Z :=
  match acts with
  | [] => []
  | a :: rest => drawn (act a st).1 :: drawn_trace rest (act a st)
  end.

(** Several samplers sharing one connection; [who] names, call after
    call, the sampler of the pool that calls [next]. *)
Fixpoint interleave (who : list nat) (pool : list Random) (w : World)
  : list (result (entry * point)) * (list Random * World) :=
  match who with
  | [] => ([], (pool, w))
  | k :: rest =>
      match pool !! k with
      | None => interleave rest pool w
      | Some self =>
          let '(r, (self', w')) := next (self, w) in
          let '(rs, fin) := interleave rest (<[k := self']> pool) w' in
          (r :: rs, fin)
      end
  end.

(** The closed form of [calls]. *)
Fixpoint calls_pure (sp : Space) (grids : option Grid) (n : nat)
    (v : Z * list entry * G) : list (result (entry * point)) * (Z * list entry * G) :=
  match n with
  | O => ([], v)
  | S n' => let '(r, v1) := next_pure sp grids v in
            let '(rs, v2) := calls_pure sp grids n' v1 in (r :: rs, v2)
  end.

(** The id a token carries, and the ids handed out by the successful
    calls of a run, in call order. *)
Definition token_id (tok : entry) : option Z :=
  match tok !! chocolate_id with
  | Some (VInt z) => Some z
  | _ => None
  end.

Definition ok_ids (outs : list (result (entry * point))) : list Z :=
  omap (λ r, match r with
             | Ok (tok, _) => token_id tok
             | Raise _ => None
             end) outs.

Definition ok_pair (ip : Z * point) : result (entry * point) :=
  Ok (token_of ip.1, ip.2).

(** ** Contracts of the collaborators *)

(** [choice] on a non-empty list returns one of its members. *)
Definition choice_total : Prop :=
  ∀ (a : list Z) (g : G), a ≠ [] → ∃ x g', rs_choice a g = (Ok x, g') ∧ x ∈ a.

(** Whatever [choice] returns is a member of its argument. *)
Definition choice_member : Prop :=
  ∀ (a : list Z) (g : G) x g', rs_choice a g = (Ok x, g') → x ∈ a.

(** A raw value equals at most one integer, as Python's numbers do. *)
Definition eq_int_single : Prop :=
  ∀ (r : raw) (x y : Z), raw_eq_int r x = true → raw_eq_int r y = true → x = y.

(** Every assignment of the grid has one raw value per dimension name. *)
Definition grid_covers (sp : Space) (gr : Grid) : Prop :=
  Forall (λ a, length a = length (names sp)) gr.

(** ** Stores *)

(** The documents carry the integer ids [zs], in enumeration order. *)
Definition store_ids (docs : list entry) (zs : list Z) : Prop :=
  doc_ids docs = Ok (VInt <$> zs).

(** Grid index [x] is the id of some stored document. *)
Definition recorded (x : Z) (docs : list entry) : Prop :=
  ∃ doc v, doc ∈ docs ∧ doc !! chocolate_id = Some v ∧ py_eq_int v x = true.

(** The store of a discrete exploration over a grid of size [l]: integer
    ids, pairwise distinct, all in [0, l). *)
Definition store_ok (l : Z) (docs : list entry) : Prop :=
  ∃ zs, store_ids docs zs ∧ NoDup zs ∧ ∀ z, z ∈ zs → 0 ≤ z < l.

(** A sampler as [__init__] leaves it and [next] keeps it: the grid is
    there exactly when the space is discrete. *)
Definition sampler_wf (self : Random) : Prop :=
  subspace_grids self =
    if isdiscrete (space self) then Some (ParameterGrid (space self)) else None.

(** A sampler and a store in the course of an exploration: the sampler
    is well formed; a discrete store is as above; otherwise the store has
    at least [drawn] documents. *)
Definition exploring (self : Random) (w : World) : Prop :=
  sampler_wf self ∧
  if isdiscrete (space self)
  then store_ok (grid_len (ParameterGrid (space self))) (results w)
  else drawn self ≤ Z.of_nat (length (results w)).

(** ** Where an uninterrupted run stands

    The state a run over a space that is not discrete, started from an
    empty store by a fresh sampler whose generator is in state [g0], has
    reached: the counter equals the number of documents and the generator
    has advanced by one full point per document. *)
Definition scratch_continuous (sp : Space) (g0 : G) (v : Z * list entry * G) : Prop :=
  v.1.1 = Z.of_nat (length v.1.2) ∧
  v.2 = burn (Z.to_nat (space_len sp * Z.of_nat (length v.1.2))) g0.

(** ** Samplers in step

    Several samplers built over one space that is not discrete, each with
    a generator of its own started in the state [g0], working on one
    store.  [position sp g0 c] is where the generator of a sampler that
    has accounted for [c] documents stands; a sampler is in step with the
    store when its generator stands where its counter says. *)

Definition position (sp : Space) (g0 : G) (c : Z) : G :=
  burn (Z.to_nat (space_len sp * c)) g0.

Definition in_step (sp : Space) (g0 : G) (w : World) (self : Random) : Prop :=
  space self = sp ∧ subspace_grids self = None ∧
  0 ≤ drawn self ≤ Z.of_nat (length (results w)) ∧
  generators w (random_state self) = position sp g0 (drawn self).

Definition team (sp : Space) (g0 : G) (pool : list Random) (w : World) : Prop :=
  NoDup (random_state <$> pool) ∧ Forall (in_step sp g0 w) pool.

(** The view of a sampler that made every draw of the store itself. *)
Definition lead (sp : Space) (g0 : G) (docs : list entry) : Z * list entry * G :=
  (Z.of_nat (length docs), docs, position sp g0 (Z.of_nat (length docs))).

(** ** A generator that records the operations performed on it *)



End Sampler.

(** * A concrete instance

    A small generator, the discrete space of two dimensions
    [a ∈ {1,2,3}], [b ∈ {4,5}] with its grid of size 6, and a continuous
    space of two dimensions.  Raw scalars are thousandths of the unit
    interval. *)
Module Toy.

Definition lcg (g : Z) : Z := (1103515245 * g + 12345) `mod` 2147483648.

Definition pick_at (a : list Z) (m x : Z) : Z :=
  nth (Z.to_nat (m `mod` Z.of_nat (length a))) a x.

Definition pick (a : list Z) (g : Z) : result Z * Z :=
  match a with
  | [] => (Raise ValueError, g)
  | x :: _ => (Ok (pick_at a (lcg g `div` 65536) x), lcg g)
  end.

#[global] Instance toy_scalar : Scalar Z := {| raw_eq_int r z := bool_decide (r = 1000 * z) |}.

(** Seeds outside [0, 2^32) are refused, as [numpy.random.RandomState]
    refuses them; a scalar draw and a choice both advance the state by one
    step. *)
#[global] Instance toy_generator : RandomState Z Z Z :=
  {| rs_init v := if bool_decide (0 ≤ v < 4294967296) then Ok v else Raise ValueError;
     rs_rand g := ((lcg g `div` 65536) `mod` 1000, lcg g);
     rs_choice := pick |}.

Definition discrete_space : Space (raw := Z) (point := list Z) :=
  {| names := ["a"; "b"];
     isdiscrete := true;
     space_call out :=
       match out with
       | [x; y] => [1 + (x * 3) `div` 1000; 4 + (y * 2) `div` 1000]
       | _ => []
       end;
     space_grid :=
       [[166; 250]; [166; 750]; [500; 250]; [500; 750]; [833; 250]; [833; 750]] |}.

Definition continuous_space : Space (raw := Z) (point := list Z) :=
  {| names := ["x"; "y"];
     isdiscrete := false;
     space_call out := out;
     space_grid := [] |}.

Definition world (docs : list (gmap string (value Z))) : World (G := Z) :=
  {| results := docs; generators := λ _, 7; allocated := 1 |}.

(** A continuous space one of whose dimensions is named like the id key. *)
Definition clash_space : Space (raw := Z) (point := list Z) :=
  {| names := ["a"; "_chocolate_id"];
     isdiscrete := false;
     space_call out := out;
     space_grid := [] |}.

(** The sampler and the world that [Random(conn, space, 42)] yields over a
    store holding [docs]. *)
Definition sampler (sp : Space (raw := Z) (point := list Z)) : Random :=
  fresh_sampler sp 1.

Definition seeded (docs : list (gmap string (value Z))) : World (G := Z) :=
  (new_generator 42 (world docs)).2.


(** The documents after the first two calls of the run over the discrete
    space, enumerated last first. *)
Definition two_docs : list (gmap string (value Z)) :=
  reverse (results (calls 2 (sampler discrete_space, seeded [])).2.2).


(** A discrete space with three dimension names whose grid assignments
    hold two values each. *)
Definition short_space : Space (raw := Z) (point := list Z) :=
  {| names := ["a"; "b"; "c"];
     isdiscrete := true;
     space_call out := out;
     space_grid := [[166; 250]; [833; 750]] |}.

(** A sampler of the continuous space that has drawn twice, as it stands
    once the store has been emptied behind it. *)
Definition stale : Random (raw := Z) (point := list Z) :=
  {| space := continuous_space; random_state := 1; subspace_grids := None; drawn := 2 |}.

(** An empty store beside generators that are all in the state of seed 42. *)
Definition twins : World (raw := Z) (G := Z) :=
  {| results := []; generators := λ _, 42; allocated := 3 |}.

End Toy.

(** * The generator the constructor builds

    [numpy.random.RandomState] is not part of the repository.  Its legacy
    generator is MT19937, a stream of 32-bit words over a state of 624
    words: [RandomState(seed)] fills the state from an integer seed in
    [[0, 2^32)] and refuses any other integer; [rand()] takes two words
    and makes a double with 53 bits of them; [choice(a)] draws the index
    [randint(0, len(a))], that is, words masked to the bits of
    [len(a) - 1] until one is at most [len(a) - 1], and no word at all
    when [a] has one element. *)

Module Numpy.

Record mt19937 := mkState { key : list Z; pos : nat }.

(** A double of [[0, 1)] written as its numerator over [2^53]. *)
Record double := mkDouble { numerator : Z }.

Definition u32 (z : Z) : Z := Z.land z 4294967295.

Fixpoint seed_key (n : nat) (i : Z) (s : Z) : list Z :=
  match n with
  | O => []
  | S n' =>
      s :: seed_key n' (i + 1) (u32 (1812433253 * Z.lxor s (Z.shiftr s 30) + i + 1))
  end.

Definition mt19937_seed (seed : Z) : mt19937 :=
  {| key := seed_key 624 0 (u32 seed); pos := 624 |}.

(** One step of the regeneration loop, in place: word [i] is rebuilt from
    words [i], [i + 1] and [i + 397] (indices modulo 624) of the array as
    it stands. *)
Definition regenerate_at (k : list Z) (i : nat) : list Z :=
  let y := Z.lor (Z.land (k !!! i) 2147483648)
                 (Z.land (k !!! ((i + 1) `mod` 624)%nat) 2147483647) in
  <[i := Z.lxor (Z.lxor (k !!! ((i + 397) `mod` 624)%nat) (Z.shiftr y 1))
                (if Z.odd y then 2567483615 else 0)]> k.

Definition regenerate (k : list Z) : list Z := foldl regenerate_at k (seq 0 624).

Definition temper (y : Z) : Z :=
  let y := Z.lxor y (Z.shiftr y 11) in
  let y := Z.lxor y (Z.land (Z.shiftl y 7) 2636928640) in
  let y := Z.lxor y (Z.land (Z.shiftl y 15) 4022730752) in
  Z.lxor y (Z.shiftr y 18).

Definition mt19937_gen (st : mt19937) : Z * mt19937 :=
  let st := if bool_decide (pos st = 624%nat)
            then {| key := regenerate (key st); pos := 0 |} else st in
  (temper (key st !!! pos st), {| key := key st; pos := S (pos st) |}).

Definition rk_double (st : mt19937) : double * mt19937 :=
  let '(a, st) := mt19937_gen st in
  let '(b, st) := mt19937_gen st in
  (mkDouble (Z.shiftr a 5 * 67108864 + Z.shiftr b 6), st).

(** The smallest [2^k - 1] that is at least [rng]. *)
Definition mask_of (rng : Z) : Z := Z.ones (Z.log2 rng + 1).

(** The rejection loop of [randint].  numpy repeats it until a word
    passes; here it stops after [fuel] words, with an error that numpy
    does not have. *)
Fixpoint bounded (fuel : nat) (rng mask : Z) (st : mt19937) : result Z * mt19937 :=
  match fuel with
  | O => (Raise ValueError, st)
  | S fuel' =>
      let '(w, st') := mt19937_gen st in
      let val := Z.land w mask in
      if bool_decide (val ≤ rng) then (Ok val, st') else bounded fuel' rng mask st'
  end.

Definition randint (high : Z) (st : mt19937) : result Z * mt19937 :=
  let rng := high - 1 in
  if bool_decide (rng = 0) then (Ok 0, st)
  else bounded 4096 rng (mask_of rng) st.

Definition choice (a : list Z) (st : mt19937) : result Z * mt19937 :=
  match a with
  | [] => (Raise ValueError, st)
  | x :: _ =>
      match randint (Z.of_nat (length a)) st with
      | (Ok idx, st') => (Ok (nth (Z.to_nat idx) a x), st')
      | (Raise e, st') => (Raise e, st')
      end
  end.

(** [r == z] for a double [r] and an integer [z]. *)
#[global] Instance double_scalar : Scalar double :=
  {| raw_eq_int r z := bool_decide (numerator r = z * 9007199254740992) |}.

#[global] Instance numpy_generator : RandomState mt19937 double Z :=
  {| rs_init v :=
       if bool_decide (0 ≤ v < 4294967296) then Ok (mt19937_seed v) else Raise ValueError;
     rs_rand := rk_double;
     rs_choice := choice |}.

(** The space [a: {1, 2, 3}, b: {4, 5}], whose grid has six assignments.
    The doubles of the grid stand for those of the space's own grid, which
    is not part of the repository; the ids drawn do not depend on them. *)
Definition grid6 : Space (raw := double) (point := list Z) :=
  {| names := ["a"; "b"];
     isdiscrete := true;
     space_call out :=
       match out with
       | [x; y] => [1 + Z.shiftr (3 * numerator x) 53; 4 + Z.shiftr (2 * numerator y) 53]
       | _ => []
       end;
     space_grid :=
       (λ xy : Z * Z, [mkDouble (xy.1 * 1125899906842624); mkDouble (xy.2 * 1125899906842624)])
         <$> [(1, 2); (1, 6); (4, 2); (4, 6); (7, 2); (7, 6)] |}.

(** A store beside one process-wide generator, the sampler and the world
    that [Random(conn, grid6, 42)] yields over it, and the world of two
    samplers built so (handles 1 and 2). *)
Definition world (docs : list (gmap string (value double))) : World (G := mt19937) :=
  {| results := docs; generators := λ _, mt19937_seed 0; allocated := 1 |}.

Definition sampler : Random (raw := double) (point := list Z) := fresh_sampler grid6 1.

Definition seeded (docs : list (gmap string (value double))) : World (G := mt19937) :=
  (new_generator (mt19937_seed 42) (world docs)).2.

Definition seeded_twice : World (raw := double) (G := mt19937) :=
  (new_generator (mt19937_seed 42) (seeded [])).2.

(** The documents of the first three calls of the run from an empty store. *)
Definition three_docs : list (gmap string (value double)) :=
  results (calls 3 (sampler, seeded [])).2.2.

End Numpy.

(** * Properties

    For any type of raw scalars, of points and of seeds, and any
    generator. *)

Section Properties.
Context {raw point seedval G : Type}.
Context `{!Scalar raw} `{!RandomState G raw seedval}.

#[local] Abbreviation entry := (gmap string (value raw)).
#[local] Abbreviation Space := (Space (raw := raw) (point := point)).
#[local] Abbreviation Grid := (Grid (raw := raw)).
#[local] Abbreviation Random := (Random (raw := raw) (point := point)).
#[local] Abbreviation World := (World (raw := raw) (G := G)).
#[local] Abbreviation M := (M (raw := raw) (point := point) (G := G)).
#[local] Abbreviation outcome := (result (entry * point)).

Implicit Types (st : Random * World) (self : Random) (w : World).
Implicit Types (sp : Space) (gr : Grid) (grids : option Grid).
Implicit Types (docs : list entry) (doc : entry) (tok : entry) (p : point).
Implicit Types (g : G) (out : list raw).

Lemma upd_refl h w : upd h (generators w h) w w.
Proof. by repeat split. Qed.

Lemma upd_set h g w : upd h g w (set_generator h g w).
Proof.
  repeat split; simpl.
  - by rewrite bool_decide_eq_true_2.
  - intros k Hk. by rewrite bool_decide_eq_false_2.
Qed.

Lemma upd_trans h g1 g2 w w1 w2 : upd h g1 w w1 → upd h g2 w1 w2 → upd h g2 w w2.
Proof.
  intros (Hr1 & Ha1 & _ & Ho1) (Hr2 & Ha2 & Hg2 & Ho2).
  repeat split; [congruence | congruence | done |].
  intros k Hk. rewrite Ho2, Ho1; done.
Qed.

Lemma on_generator_spec {A} (op : G → result A * G) self w :
  ∃ w', on_generator op (self, w) = ((op (generators w (random_state self))).1, (self, w'))
        ∧ upd (random_state self) (op (generators w (random_state self))).2 w w'.
Proof.
  unfold on_generator. destruct (op _) as [r g'] eqn:E.
  eexists; split; [reflexivity | apply upd_set].
Qed.

Lemma rand_seq_app n m g :
  rand_seq (n + m) g =
    ((rand_seq n g).1 ++ (rand_seq m (burn n g)).1, burn m (burn n g)).
Proof.
  unfold burn. revert g. induction n as [|n IH]; intros g; simpl.
  - by destruct (rand_seq m g).
  - destruct (rs_rand g) as [x g1]. rewrite IH.
    destruct (rand_seq n g1) as [xs g2]; simpl. done.
Qed.

Lemma burn_add n m g : burn (n + m) g = burn m (burn n g).
Proof. unfold burn at 1. by rewrite rand_seq_app. Qed.

Lemma burn_S n g : burn (S n) g = burn n (rs_rand g).2.
Proof. unfold burn; simpl. destruct (rs_rand g) as [x g1]; simpl. by destruct (rand_seq n g1). Qed.

Lemma burn_0 g : burn 0 g = g.
Proof. done. Qed.

Lemma length_rand_seq n g : length (rand_seq n g).1 = n.
Proof.
  revert g. induction n as [|n IH]; intros g; simpl; [done|].
  destruct (rs_rand g) as [x g1]. specialize (IH g1).
  destruct (rand_seq n g1) as [xs g2]; simpl in *. by rewrite IH.
Qed.

Lemma run_bind {A B} (m : M A) (k : A → M B) st :
  (m ≫= k) st = match m st with
                | (Ok a, st') => k a st'
                | (Raise e, st') => (Raise e, st')
                end.
Proof. reflexivity. Qed.

Lemma burn_step self w :
  ∃ w', (self_rand ;; ret tt) (self, w) = (Ok tt, (self, w'))
        ∧ upd (random_state self) (rs_rand (generators w (random_state self))).2 w w'.
Proof.
  rewrite run_bind. unfold self_rand.
  destruct (on_generator_spec (λ g, let '(x, g') := rs_rand g in (Ok x, g')) self w)
    as (w1 & -> & Hu1).
  destruct (rs_rand (generators w (random_state self))) as [x g1]; simpl in *.
  by exists w1.
Qed.

Lemma for_range_burn n self w :
  ∃ w', for_range n (self_rand ;; ret tt) (self, w) = (Ok tt, (self, w'))
        ∧ upd (random_state self) (burn n (generators w (random_state self))) w w'.
Proof.
  revert w. induction n as [|n IH]; intros w.
  - exists w. split; [done | apply upd_refl].
  - cbn [for_range]. rewrite run_bind.
    destruct (burn_step self w) as (w1 & -> & Hu1).
    destruct (IH w1) as (w2 & -> & Hu2).
    exists w2. split; [done|].
    eapply upd_trans; [exact Hu1|].
    rewrite burn_S. destruct Hu1 as (_ & _ & <- & _). exact Hu2.
Qed.

Lemma for_each_ids docs st :
  for_each (λ doc : entry, lift (dict_getitem doc chocolate_id)) docs st = (doc_ids docs, st).
Proof.
  induction docs as [|doc rest IH]; [done|].
  cbn [for_each doc_ids]. rewrite run_bind. unfold lift at 1.
  destruct (dict_getitem doc chocolate_id); [|done].
  rewrite run_bind, IH. by destruct (doc_ids rest).
Qed.

Lemma rand_shape_1 (n : Z) g :
  0 ≤ n → rand_shape [n] g = (Ok (rand_seq (Z.to_nat n) g).1, burn (Z.to_nat n) g).
Proof.
  intros Hn. unfold rand_shape, burn; cbn [forallb foldr].
  rewrite bool_decide_eq_true_2 by done. cbn [andb].
  rewrite Z.mul_1_r. by destruct (rand_seq (Z.to_nat n) g).
Qed.

Lemma rand_shape_2 (n m : Z) g :
  0 ≤ n →
  rand_shape [n; m] g =
    if bool_decide (0 ≤ m)
    then (Ok (rand_seq (Z.to_nat (n * m)) g).1, burn (Z.to_nat (n * m)) g)
    else (Raise ValueError, g).
Proof.
  intros Hn. unfold rand_shape, burn; cbn [forallb foldr].
  rewrite (bool_decide_eq_true_2 (0 ≤ n)) by done. cbn [andb].
  rewrite andb_true_r, Z.mul_1_r.
  case_bool_decide; [|done]. by destruct (rand_seq (Z.to_nat (n * m)) g).
Qed.

Lemma space_len_nonneg sp : 0 ≤ space_len sp.
Proof. unfold space_len. lia. Qed.

(** The monadic [next] and its closed form agree: same outcome, same
    effect on what the call reads, nothing else touched. *)
Lemma next_spec st :
  ∃ st', next st = ((next_pure (space st.1) (subspace_grids st.1) (view st)).1, st')
         ∧ view st' = (next_pure (space st.1) (subspace_grids st.1) (view st)).2
         ∧ frame st st'.
Proof.
  destruct st as [self w]. unfold next, view, frame; cbn [fst snd].
  rewrite run_bind; cbn [count_results]. rewrite run_bind; cbn [get_self].
  rewrite run_bind.
  destruct (subspace_grids self) as [grids|] eqn:Hgrid; cbn [next_pure].
  - destruct (Z.of_nat (length (results w)) >=? grid_len grids) eqn:Hfull.
    { eexists; split; [reflexivity|]. cbn. by rewrite Hgrid. }
    rewrite run_bind; cbn [get_drawn]. rewrite run_bind.
    destruct (for_range_burn (Z.to_nat (Z.of_nat (length (results w)) - drawn self)) self w)
      as (w1 & -> & (Hr1 & Ha1 & Hg1 & Ho1)).
    rewrite run_bind; cbn [all_results]. rewrite run_bind, for_each_ids, Hr1.
    destruct (doc_ids (results w)) as [ids|e] eqn:Hids.
    2:{ eexists; split; [reflexivity|]. cbn. rewrite Hr1, Hg1, Hgrid. by repeat split. }
    rewrite run_bind. unfold self_choice.
    destruct (on_generator_spec
                (rs_choice (choices_of (grid_len grids) ids)) self w1)
      as (w2 & Hc & (Hr2 & Ha2 & Hg2 & Ho2)).
    fold (choices_of (grid_len grids) ids). rewrite Hc; clear Hc. rewrite Hg1 in *.
    remember (rs_choice (choices_of (grid_len grids) ids) _) as c eqn:Ec in *.
    clear Ec. destruct c as [[sample|e] g2]; cbn [fst snd] in *.
    2:{ eexists; split; [reflexivity|]. cbn. rewrite Hr2, Hr1, Hg2, Hgrid.
        repeat split; try congruence. intros k Hk. by rewrite Ho2, Ho1. }
    rewrite run_bind; cbn [get_drawn]. rewrite run_bind; cbn [set_drawn].
    rewrite run_bind. unfold lift at 1, int.
    destruct (grid_getitem grids sample) as [out|e].
    2:{ eexists; split; [reflexivity|]. cbn. rewrite Hr2, Hr1, Hg2.
        repeat split; try congruence; [f_equal; f_equal; lia|].
        intros k Hk. by rewrite Ho2, Ho1. }
    cbn [ret]. rewrite run_bind; cbn [insert_result].
    eexists; split; [reflexivity|]. cbn. rewrite Hr2, Hr1, Hg2.
    repeat split; try congruence; [f_equal; f_equal; lia|].
    intros k Hk. by rewrite Ho2, Ho1.
  - rewrite run_bind; cbn [get_drawn]. rewrite run_bind. unfold self_rand_shape.
    destruct (on_generator_spec
                (rand_shape [space_len (space self);
                             Z.of_nat (length (results w)) - drawn self]) self w)
      as (w1 & -> & (Hr1 & Ha1 & Hg1 & Ho1)).
    rewrite rand_shape_2 in * by apply space_len_nonneg.
    case_bool_decide; cbn [fst snd] in *.
    2:{ eexists; split; [reflexivity|]. cbn. rewrite Hr1, Hg1, Hgrid. by repeat split. }
    rewrite run_bind.
    destruct (on_generator_spec (rand_shape [space_len (space self)]) self w1)
      as (w2 & -> & (Hr2 & Ha2 & Hg2 & Ho2)).
    rewrite rand_shape_1 in * by apply space_len_nonneg. cbn [fst snd] in *.
    rewrite Hg1 in *.
    rewrite run_bind; cbn [get_drawn]. rewrite run_bind; cbn [set_drawn ret].
    rewrite run_bind; cbn [insert_result].
    unfold burn in *.
    destruct (rand_seq (Z.to_nat (space_len (space self))) _) as [out g2]; cbn [fst snd] in *.
    eexists; split; [reflexivity|]. cbn. rewrite Hr2, Hr1, Hg2.
    repeat split; try congruence; [f_equal; f_equal; lia|].
    intros k Hk. by rewrite Ho2, Ho1.
Qed.

(** ** The available choices *)

Lemma elem_of_choices_of l ids x :
  x ∈ choices_of l ids ↔ 0 ≤ x < l ∧ existsb (λ v, py_eq_int v x) ids = false.
Proof.
  unfold choices_of, sorted, set_minus, set_range.
  rewrite merge_sort_Permutation, elem_of_elements, elem_of_filter,
    elem_of_list_to_set, elem_of_seqZ.
  destruct (existsb _ ids); simpl; intuition (try done; try lia).
Qed.

Lemma choices_of_sorted l ids : StronglySorted Z.lt (choices_of l ids).
Proof.
  unfold choices_of, sorted.
  assert (Hnd : NoDup (merge_sort Z.le (elements (set_minus (set_range l) ids)))).
  { rewrite merge_sort_Permutation. apply NoDup_elements. }
  assert (Hs : StronglySorted Z.le (merge_sort Z.le (elements (set_minus (set_range l) ids)))).
  { apply StronglySorted_merge_sort; apply _. }
  induction Hs as [|x xs Hs IH Hall]; [constructor|].
  apply NoDup_cons in Hnd as [Hx Hnd].
  constructor; [by apply IH|].
  rewrite Forall_forall in Hall |- *. intros y Hy.
  specialize (Hall y Hy). assert (x ≠ y) by (intros ->; done). lia.
Qed.

(** The order in which the store enumerates its documents is irrelevant. *)
Lemma choices_of_perm l ids ids' : ids ≡ₚ ids' → choices_of l ids = choices_of l ids'.
Proof.
  intros Hp. unfold choices_of. f_equal. apply set_eq. intros x.
  unfold set_minus. rewrite !elem_of_filter.
  assert (existsb (λ v, py_eq_int v x) ids = existsb (λ v, py_eq_int v x) ids') as ->; [|done].
  apply eq_true_iff_eq. rewrite !existsb_exists.
  split; intros (v & Hv & Hx); exists v; split; try done;
    apply list_elem_of_In; apply list_elem_of_In in Hv;
    [by rewrite <- Hp | by rewrite Hp].
Qed.

Lemma py_in_ints x (zs : list Z) :
  existsb (λ v : value raw, py_eq_int v x) (VInt <$> zs) = true ↔ x ∈ zs.
Proof.
  rewrite existsb_exists. split.
  - intros (v & Hv & Hx). apply list_elem_of_In, list_elem_of_fmap in Hv as (z & -> & Hz).
    simpl in Hx. apply bool_decide_eq_true in Hx. by subst.
  - intros Hx. exists (VInt x). split.
    + apply list_elem_of_In, list_elem_of_fmap. by exists x.
    + simpl. by apply bool_decide_eq_true.
Qed.

Lemma elem_of_choices_ints l zs x :
  x ∈ choices_of l (VInt <$> zs) ↔ 0 ≤ x < l ∧ x ∉ zs.
Proof.
  rewrite elem_of_choices_of. rewrite <- (py_in_ints x zs).
  destruct (existsb _ _); intuition done.
Qed.

(** Fewer distinct ids than grid cells: something is left to choose. *)
Lemma choices_nonempty l zs :
  (Z.of_nat (length zs) < l) → choices_of l (VInt <$> zs) ≠ [].
Proof.
  intros Hlt Hnil.
  assert (Hsub : seqZ 0 l ⊆+ zs).
  { apply NoDup_submseteq; [apply NoDup_seqZ|]. intros x Hx.
    apply elem_of_seqZ in Hx. destruct (decide (x ∈ zs)) as [|Hn]; [done|].
    assert (x ∈ choices_of l (VInt <$> zs)) as Hin
      by (apply elem_of_choices_ints; split; [lia | done]).
    rewrite Hnil in Hin. by apply elem_of_nil in Hin. }
  apply submseteq_length in Hsub. rewrite length_seqZ in Hsub. lia.
Qed.

(** ** Documents and their ids *)

Lemma doc_ids_Ok docs vs :
  doc_ids docs = Ok vs ↔ Forall2 (λ doc v, doc !! chocolate_id = Some v) docs vs.
Proof.
  revert vs. induction docs as [|doc rest IH]; intros vs; simpl.
  - split; [intros [= <-]; constructor | intros ->%Forall2_nil_inv_l; done].
  - unfold dict_getitem. destruct (doc !! chocolate_id) as [v|] eqn:Hv.
    + destruct (doc_ids rest) as [vs'|e].
      * split.
        -- intros [= <-]. constructor; [done | by apply IH].
        -- intros (v' & vs'' & Hv' & Hrest & ->)%Forall2_cons_inv_l.
           apply IH in Hrest. congruence.
      * split; [done|].
        intros (v' & vs'' & Hv' & Hrest & ->)%Forall2_cons_inv_l.
        apply IH in Hrest. done.
    + split; [done|].
      intros (v' & vs'' & Hv' & Hrest & ->)%Forall2_cons_inv_l. congruence.
Qed.

Lemma doc_ids_length docs vs : doc_ids docs = Ok vs → length vs = length docs.
Proof. intros H%doc_ids_Ok. symmetry. by eapply Forall2_length. Qed.

Lemma doc_ids_snoc docs vs doc v :
  doc_ids docs = Ok vs → doc !! chocolate_id = Some v →
  doc_ids (docs ++ [doc]) = Ok (vs ++ [v]).
Proof.
  rewrite !doc_ids_Ok. intros H1 H2. apply Forall2_app; [done|]. by repeat constructor.
Qed.

Lemma doc_ids_perm docs docs' vs :
  docs ≡ₚ docs' → doc_ids docs = Ok vs →
  ∃ vs', doc_ids docs' = Ok vs' ∧ vs ≡ₚ vs'.
Proof.
  intros Hp. revert vs. induction Hp as [|doc l l' Hp IH|d1 d2 l|l l' l'' Hp1 IH1 Hp2 IH2];
    intros vs Hvs.
  - exists vs. done.
  - apply doc_ids_Ok, Forall2_cons_inv_l in Hvs as (v & vs0 & Hv & Hrest & ->).
    apply doc_ids_Ok, IH in Hrest as (vs' & Hvs' & Hperm).
    exists (v :: vs'). split; [|by constructor].
    apply doc_ids_Ok. constructor; [done | by apply doc_ids_Ok].
  - apply doc_ids_Ok, Forall2_cons_inv_l in Hvs as (v1 & vs0 & Hv1 & Hrest & ->).
    apply Forall2_cons_inv_l in Hrest as (v2 & vs1 & Hv2 & Hrest & ->).
    exists (v2 :: v1 :: vs1). split; [|apply perm_swap].
    apply doc_ids_Ok. by repeat constructor.
  - destruct (IH1 _ Hvs) as (vs1 & H1 & Hq1).
    destruct (IH2 _ H1) as (vs2 & H2 & Hq2).
    exists vs2. split; [done | by etrans].
Qed.

Lemma entry_of_id sp out id : entry_of sp out id !! chocolate_id = Some (VInt id).
Proof.
  unfold entry_of, dict_update, token_of.
  apply lookup_union_Some_l, lookup_singleton_eq.
Qed.

Lemma store_ids_nil : store_ids ([] : list entry) [].
Proof. done. Qed.

Lemma store_ids_snoc docs zs sp out id :
  store_ids docs zs → store_ids (docs ++ [entry_of sp out id]) (zs ++ [id]).
Proof.
  unfold store_ids. intros H. rewrite fmap_app.
  eapply doc_ids_snoc; [done | apply entry_of_id].
Qed.

Lemma store_ids_length docs zs : store_ids docs zs → length zs = length docs.
Proof. intros H%doc_ids_length. by rewrite length_fmap in H. Qed.

Lemma store_ids_recorded docs zs x : store_ids docs zs → recorded x docs ↔ x ∈ zs.
Proof.
  unfold store_ids. rewrite doc_ids_Ok. intros HF. split.
  - intros (doc & v & Hdoc & Hv & Heq).
    apply list_elem_of_lookup in Hdoc as [k Hk].
    destruct (Forall2_lookup_l _ _ _ _ _ HF Hk) as (v' & Hk' & Hv').
    assert (v' = v) as -> by congruence.
    apply list_lookup_fmap_Some in Hk' as (z & -> & Hz).
    simpl in Heq. apply bool_decide_eq_true in Heq as ->.
    by eapply list_elem_of_lookup_2.
  - intros Hx. apply list_elem_of_lookup in Hx as [k Hk].
    assert ((VInt <$> zs) !! k = Some (VInt (raw:=raw) x)) as Hk'
      by (by rewrite list_lookup_fmap, Hk).
    destruct (Forall2_lookup_r _ _ _ _ _ HF Hk') as (doc & Hdoc & Hv).
    exists doc, (VInt x). split_and!; [by eapply list_elem_of_lookup_2 | done |].
    simpl. by apply bool_decide_eq_true.
Qed.

Lemma grid_getitem_Ok (gr : Grid) x :
  0 ≤ x < grid_len gr → ∃ out, grid_getitem gr x = Ok out ∧ out ∈ gr.
Proof.
  intros Hx. unfold grid_getitem. rewrite bool_decide_eq_true_2 by done.
  destruct (gr !! Z.to_nat x) as [out|] eqn:Hout.
  - exists out. split; [done | by eapply list_elem_of_lookup_2].
  - apply lookup_ge_None in Hout. unfold grid_len in Hx. lia.
Qed.

(** ** One call, case by case *)

Lemma pure_stop sp gr d docs g :
  grid_len gr ≤ Z.of_nat (length docs) →
  next_pure sp (Some gr) (d, docs, g) = (Raise StopIteration, (d, docs, g)).
Proof.
  intros Hfull. cbn [next_pure].
  destruct (Z.geb_spec (Z.of_nat (length docs)) (grid_len gr)); [done | lia].
Qed.

Lemma pure_discrete_step sp gr d docs g zs :
  choice_total → store_ids docs zs →
  Z.of_nat (length docs) < grid_len gr →
  ∃ x out g',
    x ∈ choices_of (grid_len gr) (VInt <$> zs) ∧
    rs_choice (choices_of (grid_len gr) (VInt <$> zs))
      (burn (Z.to_nat (Z.of_nat (length docs) - d)) g) = (Ok x, g') ∧
    grid_getitem gr x = Ok out ∧ out ∈ gr ∧
    next_pure sp (Some gr) (d, docs, g) =
      (Ok (token_of x, space_call sp out),
       (Z.of_nat (length docs) + 1, docs ++ [entry_of sp out x], g')).
Proof.
  intros Hchoice Hids Hlt. cbn [next_pure].
  destruct (Z.geb_spec (Z.of_nat (length docs)) (grid_len gr)); [lia|].
  unfold store_ids in Hids. rewrite Hids.
  destruct (Hchoice (choices_of (grid_len gr) (VInt <$> zs))
              (burn (Z.to_nat (Z.of_nat (length docs) - d)) g))
    as (x & g' & Hc & Hx).
  { apply choices_nonempty. apply doc_ids_length in Hids.
    rewrite length_fmap in Hids. lia. }
  rewrite Hc.
  destruct (grid_getitem_Ok gr x) as (out & Hout & Hin).
  { by apply elem_of_choices_ints in Hx as [? _]. }
  rewrite Hout. exists x, out, g'. by split_and!.
Qed.

Lemma pure_continuous_step sp d docs g :
  d ≤ Z.of_nat (length docs) →
  let i := Z.of_nat (length docs) in
  let g1 := burn (Z.to_nat (space_len sp * (i - d))) g in
  let out := (rand_seq (Z.to_nat (space_len sp)) g1).1 in
  next_pure sp None (d, docs, g) =
    (Ok (token_of i, space_call sp out),
     (i + 1, docs ++ [entry_of sp out i], burn (Z.to_nat (space_len sp)) g1)).
Proof.
  intros Hd. cbn [next_pure]. rewrite bool_decide_eq_true_2 by lia.
  set (g1 := burn (Z.to_nat (space_len sp * _)) g). unfold burn.
  by destruct (rand_seq (Z.to_nat (space_len sp)) g1).
Qed.

(** Exhaustion is detected before anything is touched. *)
Lemma next_stop self w gr :
  subspace_grids self = Some gr →
  grid_len gr ≤ Z.of_nat (length (results w)) →
  next (self, w) = (Raise StopIteration, (self, w)).
Proof.
  intros Hgrid Hfull. unfold next.
  rewrite run_bind; cbn [count_results]. rewrite run_bind; cbn [get_self].
  rewrite run_bind, Hgrid.
  by destruct (Z.geb_spec (Z.of_nat (length (results w))) (grid_len gr)); [|lia].
Qed.

Lemma frame_refl st : frame st st.
Proof. by repeat split. Qed.

Lemma frame_trans st1 st2 st3 : frame st1 st2 → frame st2 st3 → frame st1 st3.
Proof.
  intros (Hs1 & Hr1 & Hg1 & Ha1 & Ho1) (Hs2 & Hr2 & Hg2 & Ha2 & Ho2).
  repeat split; try congruence.
  intros k Hk. rewrite Ho2, Ho1; congruence.
Qed.

Lemma calls_spec n st :
  (calls n st).1 = (calls_pure (space st.1) (subspace_grids st.1) n (view st)).1 ∧
  view (calls n st).2 = (calls_pure (space st.1) (subspace_grids st.1) n (view st)).2 ∧
  frame st (calls n st).2.
Proof.
  revert st. induction n as [|n IH]; intros st.
  - cbn. split; [done | split; [done | apply frame_refl]].
  - cbn [calls calls_pure].
    destruct (next_spec st) as (st1 & -> & Hv & Hf).
    destruct (next_pure _ _ (view st)) as [r v1]; cbn [fst snd] in *.
    destruct (IH st1) as (Ho & Hv' & Hf').
    pose proof Hf as (Hs & Hr & Hg & Hrest).
    rewrite Hs, Hg, Hv in *.
    destruct (calls n st1) as [rs st2], (calls_pure _ _ n v1) as [rs' v2]; cbn [fst snd] in *.
    split; [by subst | split; [done|]].
    eapply frame_trans; [exact Hf | exact Hf'].
Qed.

Lemma calls_pure_snoc sp grids n v :
  calls_pure sp grids (S n) v =
    let '(rs, v1) := calls_pure sp grids n v in
    let '(r, v2) := next_pure sp grids v1 in (rs ++ [r], v2).
Proof.
  revert v. induction n as [|n IH]; intros v.
  - cbn. by destruct (next_pure sp grids v).
  - change (calls_pure sp grids (S (S n)) v) with
      (let '(r, v1) := next_pure sp grids v in
       let '(rs, v2) := calls_pure sp grids (S n) v1 in (r :: rs, v2)).
    cbn [calls_pure] in *. destruct (next_pure sp grids v) as [r v1].
    specialize (IH v1). destruct (next_pure sp grids v1) as [r1 v2] eqn:E1.
    rewrite IH. destruct (calls_pure sp grids n v1) as [rs v3].
    by destruct (next_pure sp grids v3).
Qed.

(** ** Construction *)

Lemma init_Ok sp arg w0 self w :
  __init__ sp arg w0 = (Ok self, w) →
  ∃ h, self = fresh_sampler sp h ∧ results w = results w0.
Proof.
  unfold __init__. destruct arg as [h| |v].
  - intros [= <- <-]. by exists h.
  - intros [= <- <-]. by exists numpy_random.
  - destruct (rs_init v) as [g|e]; [|done]. cbn. intros [= <- <-]. by eexists.
Qed.

Lemma fresh_sampler_wf sp h : sampler_wf (fresh_sampler sp h).
Proof. done. Qed.

(** ** Runs in closed form *)

Lemma pure_discrete_run sp gr :
  choice_total →
  ∀ n d docs g zs,
    store_ids docs zs → NoDup zs → (∀ z, z ∈ zs → 0 ≤ z < grid_len gr) →
    Z.of_nat (length docs) + Z.of_nat n ≤ grid_len gr →
    ∃ pairs d' docs' g',
      calls_pure sp (Some gr) n (d, docs, g) = (ok_pair <$> pairs, (d', docs', g')) ∧
      length pairs = n ∧
      store_ids docs' (zs ++ pairs.*1) ∧
      NoDup (zs ++ pairs.*1) ∧
      (∀ z, z ∈ zs ++ pairs.*1 → 0 ≤ z < grid_len gr).
Proof.
  intros Hchoice. induction n as [|n IH]; intros d docs g zs Hids Hnd Hrange Hroom.
  - exists [], d, docs, g. cbn. rewrite app_nil_r. by split_and!.
  - cbn [calls_pure].
    destruct (pure_discrete_step sp gr d docs g zs) as (x & out & g' & Hx & _ & _ & _ & ->);
      [done | done | lia |].
    apply elem_of_choices_ints in Hx as [Hx1 Hx2].
    destruct (IH (Z.of_nat (length docs) + 1) (docs ++ [entry_of sp out x]) g' (zs ++ [x]))
      as (pairs & d' & docs' & g'' & -> & Hlen & Hids' & Hnd' & Hrange').
    + by apply store_ids_snoc.
    + apply NoDup_app. split_and!; [done | | apply NoDup_singleton].
      intros z Hz ->%list_elem_of_singleton. done.
    + intros z [Hz | ->%list_elem_of_singleton]%elem_of_app; [by apply Hrange | lia].
    + rewrite length_app; cbn. lia.
    + exists ((x, space_call sp out) :: pairs), d', docs', g''.
      cbn [fmap list_fmap fst]. rewrite <- app_assoc in *. cbn in *.
      split_and!; [done | by f_equal | done | done | done].
Qed.

Lemma pure_continuous_run sp :
  ∀ n d docs g zs,
    store_ids docs zs → d ≤ Z.of_nat (length docs) →
    ∃ pts d' docs' g',
      calls_pure sp None n (d, docs, g) =
        (ok_pair <$> zip (seqZ (Z.of_nat (length docs)) (Z.of_nat n)) pts, (d', docs', g')) ∧
      length pts = n ∧
      store_ids docs' (zs ++ seqZ (Z.of_nat (length docs)) (Z.of_nat n)).
Proof.
  induction n as [|n IH]; intros d docs g zs Hids Hd.
  - exists [], d, docs, g. cbn. rewrite app_nil_r. by split_and!.
  - cbn [calls_pure]. rewrite pure_continuous_step by done.
    set (out := (rand_seq _ _).1). set (g1 := burn _ (burn _ g)).
    destruct (IH (Z.of_nat (length docs) + 1)
                (docs ++ [entry_of sp out (Z.of_nat (length docs))]) g1
                (zs ++ [Z.of_nat (length docs)]))
      as (pts & d' & docs' & g' & -> & Hlen & Hids').
    + by apply store_ids_snoc.
    + rewrite length_app; cbn. lia.
    + exists (space_call sp out :: pts), d', docs', g'.
      rewrite length_app in *. cbn [length] in *.
      rewrite (seqZ_cons _ (Z.of_nat (S n))) by lia.
      replace (Z.pred (Z.of_nat (S n))) with (Z.of_nat n) by lia.
      replace (Z.succ (Z.of_nat (length docs))) with (Z.of_nat (length docs + 1)) by lia.
      rewrite <- app_assoc in Hids'. cbn in *.
      split_and!; [done | by f_equal | done].
Qed.

(** Every way a call can end. *)
Lemma next_pure_inv sp grids d docs g r d' docs' g' :
  next_pure sp grids (d, docs, g) = (r, (d', docs', g')) →
  let i := Z.of_nat (length docs) in
  (∃ e, r = Raise e ∧ docs' = docs ∧ (d' = d ∨ d' = i + 1 ∧ is_Some grids)) ∨
  (∃ x out,
     r = Ok (token_of x, space_call sp out) ∧ d' = i + 1 ∧
     docs' = docs ++ [entry_of sp out x] ∧
     match grids with
     | Some gr =>
         i < grid_len gr ∧ grid_getitem gr x = Ok out ∧
         ∃ ids, doc_ids docs = Ok ids ∧
           rs_choice (choices_of (grid_len gr) ids) (burn (Z.to_nat (i - d)) g) = (Ok x, g')
     | None =>
         x = i ∧ 0 ≤ i - d ∧
         rand_seq (Z.to_nat (space_len sp))
           (burn (Z.to_nat (space_len sp * (i - d))) g) = (out, g')
     end).
Proof.
  cbn [next_pure]. destruct grids as [gr|].
  - destruct (Z.geb_spec (Z.of_nat (length docs)) (grid_len gr)).
    { intros [= <- <- <- <-]. left. eauto. }
    destruct (doc_ids docs) as [ids|e].
    2:{ intros [= <- <- <- <-]. left. eauto. }
    destruct (rs_choice _ _) as [[x|e] g2] eqn:Hc.
    2:{ intros [= <- <- <- <-]. left. eauto. }
    destruct (grid_getitem gr x) as [out|e] eqn:Hout.
    2:{ intros [= <- <- <- <-]. left. eauto 10. }
    intros [= <- <- <- <-]. right. exists x, out. split_and!; eauto.
  - case_bool_decide.
    2:{ intros [= <- <- <- <-]. left. eauto. }
    destruct (rand_seq _ _) as [out g2] eqn:Hr.
    intros [= <- <- <- <-]. right. eexists _, out. split_and!; eauto.
Qed.

(** The same, for the monadic [next]. *)
Lemma next_inv st r st' :
  next st = (r, st') →
  next_pure (space st.1) (subspace_grids st.1) (view st) = (r, view st') ∧ frame st st'.
Proof.
  intros Hn. destruct (next_spec st) as (st1 & Hn1 & Hv & Hf).
  rewrite Hn in Hn1. apply pair_equal_spec in Hn1 as [-> ->]. split; [|done].
  rewrite Hv. by destruct (next_pure _ _ _).
Qed.

(** The outcomes of a run depend on the world only through what the
    sampler reads. *)
Lemma calls_same_view n st1 st2 :
  space st1.1 = space st2.1 → subspace_grids st1.1 = subspace_grids st2.1 →
  view st1 = view st2 → (calls n st1).1 = (calls n st2).1.
Proof.
  intros Hs Hg Hv.
  destruct (calls_spec n st1) as (-> & _), (calls_spec n st2) as (-> & _).
  by rewrite Hs, Hg, Hv.
Qed.

(** The counter never runs more than one ahead of the store, and under
    that bound no action lowers it. *)
Lemma act_drawn a st :
  drawn st.1 ≤ Z.of_nat (length (results st.2)) + 1 →
  drawn st.1 ≤ drawn (act a st).1 ∧
  drawn (act a st).1 ≤ Z.of_nat (length (results (act a st).2)) + 1.
Proof.
  intros Hd. destruct a as [|e]; cbn [act].
  - destruct (next st) as [r st'] eqn:Hn. apply next_inv in Hn as [Hp _].
    unfold view in Hp. apply next_pure_inv in Hp. cbn [snd].
    destruct Hp as [(e & _ & -> & [-> | [-> _]]) | (x & out & _ & -> & -> & _)];
      rewrite ?length_app; cbn [length]; lia.
  - destruct st as [self w]. cbn. rewrite length_app. cbn in *. lia.
Qed.

Lemma drawn_trace_sorted acts st :
  drawn st.1 ≤ Z.of_nat (length (results st.2)) + 1 →
  Sorted Z.le (drawn st.1 :: drawn_trace acts st).
Proof.
  revert st. induction acts as [|a rest IH]; intros st Hd; cbn [drawn_trace].
  - by repeat constructor.
  - destruct (act_drawn a st Hd) as [Hle Hd'].
    constructor; [by apply IH | by constructor].
Qed.

(** A full store: [l] distinct ids of [0, l) leave no index out. *)
Lemma full_store l zs x :
  NoDup zs → (∀ z, z ∈ zs → 0 ≤ z < l) → l ≤ Z.of_nat (length zs) →
  0 ≤ x < l → x ∈ zs.
Proof.
  intros Hnd Hrange Hlen Hx.
  assert (zs ≡ₚ seqZ 0 l) as ->; [|apply elem_of_seqZ; lia].
  apply submseteq_length_Permutation.
  - apply NoDup_submseteq; [done|]. intros z Hz%Hrange. apply elem_of_seqZ. lia.
  - rewrite length_seqZ. lia.
Qed.

(** Conversely, ids covering [0, l) are at least [l] in number. *)
Lemma covering_store l (zs : list Z) :
  (∀ x, 0 ≤ x < l → x ∈ zs) → l ≤ Z.of_nat (length zs).
Proof.
  intros Hall.
  assert (seqZ 0 l ⊆+ zs) as Hsub%submseteq_length.
  { apply NoDup_submseteq; [apply NoDup_seqZ|]. intros x Hx%elem_of_seqZ. apply Hall. lia. }
  rewrite length_seqZ in Hsub. lia.
Qed.

Lemma ok_ids_cons (r : outcome) outs : ok_ids (r :: outs) = ok_ids [r] ++ ok_ids outs.
Proof.
  unfold ok_ids. cbn [omap list_omap].
  by destruct (match r with Ok (tok, _) => token_id tok | Raise _ => None end).
Qed.

Lemma token_id_of x : token_id (token_of (raw := raw) x) = Some x.
Proof. unfold token_id, token_of. by rewrite lookup_singleton_eq. Qed.

(** One call of a discrete sampler against a store with distinct ids:
    either nothing is stored, or the stored id is new. *)
Lemma next_fresh_id self w zs r self' w' :
  choice_member → is_Some (subspace_grids self) →
  store_ids (results w) zs →
  next (self, w) = (r, (self', w')) →
  subspace_grids self' = subspace_grids self ∧
  ((ok_ids [r] = [] ∧ results w' = results w) ∨
   (∃ x, ok_ids [r] = [x] ∧ (x ∉ zs) ∧ store_ids (results w') (zs ++ [x]))).
Proof.
  intros Hmem [gr Hgr] Hids [Hp Hf]%next_inv. split; [apply Hf|].
  unfold view in Hp; cbn [fst snd] in Hp. apply next_pure_inv in Hp.
  destruct Hp as [(e & -> & -> & _) | (x & out & -> & _ & -> & Hrest)].
  - by left.
  - right. exists x. rewrite Hgr in Hrest.
    destruct Hrest as (_ & _ & ids & Hids' & Hc).
    unfold store_ids in Hids. rewrite Hids in Hids'. injection Hids' as <-.
    apply Hmem, elem_of_choices_ints in Hc as [_ Hx].
    split_and!; [|done|by apply store_ids_snoc].
    unfold ok_ids. cbn [omap list_omap]. by rewrite token_id_of.
Qed.

(** ** Documents as dictionaries *)

Lemma dom_foldl_insert (kvs : list (string * raw)) (acc : entry) :
  dom (foldl (λ d kv, <[kv.1 := VRaw kv.2]> d) acc kvs) = dom acc ∪ list_to_set kvs.*1.
Proof.
  revert acc. induction kvs as [|[k v] kvs IH]; intros acc; cbn.
  - by rewrite union_empty_r_L.
  - rewrite IH, dom_insert_L. apply set_eq. intros x.
    rewrite !elem_of_union. tauto.
Qed.

Lemma dom_dict_of_zip ks (vs : list raw) :
  (length ks ≤ length vs)%nat → dom (dict_of_zip ks vs) = list_to_set ks.
Proof.
  intros Hlen. unfold dict_of_zip.
  rewrite dom_foldl_insert, fst_zip, dom_empty_L by done. apply union_empty_l_L.
Qed.

Lemma foldl_insert_raw (kvs : list (string * raw)) (acc : entry) k v :
  (∀ v', acc !! k = Some v' → ∃ r, v' = VRaw r) →
  foldl (λ d kv, <[kv.1 := VRaw kv.2]> d) acc kvs !! k = Some v → ∃ r, v = VRaw r.
Proof.
  revert acc. induction kvs as [|[k' v'] kvs IH]; intros acc Hacc; cbn.
  - apply Hacc.
  - apply IH. intros v''. cbn. destruct (decide (k' = k)) as [->|Hne].
    + rewrite lookup_insert_eq. intros [= <-]. by eexists.
    + rewrite lookup_insert_ne by done. apply Hacc.
Qed.

Lemma dict_of_zip_raw ks (vs : list raw) k v :
  dict_of_zip ks vs !! k = Some v → ∃ r, v = VRaw r.
Proof. apply foldl_insert_raw. intros v'. by rewrite lookup_empty. Qed.

Lemma grid_getitem_elem (gr : Grid) x out : grid_getitem gr x = Ok out → out ∈ gr.
Proof.
  unfold grid_getitem. case_bool_decide; [|done].
  destruct (gr !! Z.to_nat x) as [a|] eqn:Ha; [|done].
  intros [= <-]. by eapply list_elem_of_lookup_2.
Qed.

(** ** Burning

    Where an uninterrupted run started from an empty store by a fresh
    sampler stands after some calls, and what a fresh sampler facing the
    same documents does on its first call. *)


Lemma burn_1 g : burn 1 g = (rs_rand g).2.
Proof. by rewrite burn_S, burn_0. Qed.

Lemma scratch_continuous_run sp g0 k :
  scratch_continuous sp g0 (calls_pure sp None k (0, [], g0)).2.
Proof.
  induction k as [|k IH].
  - cbn. split; [done|]. by rewrite Z.mul_0_r.
  - rewrite calls_pure_snoc.
    destruct (calls_pure sp None k (0, [], g0)) as [rs [[d docs] g]].
    destruct IH as (Hd & Hg); cbn [fst snd] in *. subst d g.
    rewrite pure_continuous_step by done. unfold scratch_continuous. cbn [fst snd].
    rewrite length_app. cbn [length]. split; [lia|].
    rewrite Z.sub_diag, Z.mul_0_r, burn_0, <- burn_add. f_equal.
    pose proof (space_len_nonneg sp). lia.
Qed.



Lemma store_ok_nil l : store_ok l ([] : list entry).
Proof.
  exists []. split; [done|]. split; [constructor|]. by intros z ?%elem_of_nil.
Qed.

(** Construction over an empty store starts an exploration, and every
    call keeps it one. *)
Lemma init_exploring sp arg w0 self w :
  results w0 = [] → __init__ sp arg w0 = (Ok self, w) → exploring self w.
Proof.
  intros Hempty (h & -> & Hres)%init_Ok. split; [apply fresh_sampler_wf|].
  rewrite Hres, Hempty. cbn [fresh_sampler space drawn].
  destruct (isdiscrete sp); [apply store_ok_nil | done].
Qed.

Lemma next_exploring self w r self' w' :
  choice_member → exploring self w →
  next (self, w) = (r, (self', w')) → exploring self' w'.
Proof.
  intros Hmem [Hwf Hstore] [Hp (Hs & _ & Hg & _)]%next_inv.
  unfold view in Hp; cbn [fst snd] in *. unfold exploring, sampler_wf in *.
  rewrite Hs, Hg. split; [done|].
  apply next_pure_inv in Hp. rewrite Hwf in Hp.
  destruct (isdiscrete (space self)).
  - destruct Hstore as (zs & Hids & Hnd & Hrange).
    destruct Hp as [(e & _ & -> & _) | (x & out & _ & _ & -> & _ & _ & ids & Hids' & Hc)].
    { by exists zs. }
    unfold store_ids in Hids. rewrite Hids in Hids'. injection Hids' as <-.
    apply Hmem, elem_of_choices_ints in Hc as [Hx1 Hx2].
    exists (zs ++ [x]). split_and!; [by apply store_ids_snoc | |].
    + apply NoDup_app. split_and!; [done | | apply NoDup_singleton].
      by intros z Hz ->%list_elem_of_singleton.
    + intros z [Hz | ->%list_elem_of_singleton]%elem_of_app; [by apply Hrange | done].
  - destruct Hp as [(e & _ & -> & [-> | [_ [? [=]]]]) | (x & out & _ & -> & -> & _)];
      [done|]. rewrite length_app. cbn [length]. lia.
Qed.

(** ** Properties of the sampler *)

(** C2 (determinism).  Two samplers built from the same seed value, each
    in its own world with an empty store, and each called [n] times, see
    the same sequence of outcomes, token and point alike, whatever else
    the two worlds contain (other generators, the state of the
    process-wide one); if the generator refuses the seed, both
    constructions fail alike. *)
Theorem determinism sp (v : seedval) gens1 a1 gens2 a2 n :
  match __init__ sp (ArgSeed v) (mkWorld [] gens1 a1),
        __init__ sp (ArgSeed v) (mkWorld [] gens2 a2) with
  | (Ok s1, w1), (Ok s2, w2) => (calls n (s1, w1)).1 = (calls n (s2, w2)).1
  | (Raise e1, _), (Raise e2, _) => e1 = e2
  | _, _ => False
  end.
Proof.
  unfold __init__. destruct (rs_init v) as [g|e]; [|done]. cbn [new_generator].
  apply calls_same_view; [done | done |].
  unfold view; cbn. by rewrite !bool_decide_eq_true_2.
Qed.

(** C3 (exhaustion).  Over a fully discrete space whose grid has [L]
    cells, a sampler starting from an empty store succeeds [L] times, the
    ids of the [L] tokens being a permutation of [0, ..., L-1], and its
    next call raises [StopIteration]. *)
Theorem exhaustion sp arg w0 self w :
  choice_total → isdiscrete sp = true → results w0 = [] →
  __init__ sp arg w0 = (Ok self, w) →
  ∃ pairs : list (Z * point),
    (calls (S (length (ParameterGrid sp))) (self, w)).1 =
      (ok_pair <$> pairs) ++ [Raise StopIteration] ∧
    pairs.*1 ≡ₚ seqZ 0 (Z.of_nat (length (ParameterGrid sp))).
Proof.
  intros Hchoice Hdisc Hempty (h & -> & Hres)%init_Ok.
  destruct (calls_spec (S (length (ParameterGrid sp))) (fresh_sampler sp h, w)) as (-> & _).
  unfold view; cbn [fst snd fresh_sampler space subspace_grids drawn random_state].
  rewrite Hdisc, Hres, Hempty, calls_pure_snoc.
  set (gr := ParameterGrid sp).
  destruct (pure_discrete_run sp gr Hchoice (length gr) 0 [] (generators w h) [])
    as (pairs & d' & docs' & g' & -> & Hlen & Hids & Hnd & Hrange);
    [apply store_ids_nil | constructor | by intros z ?%elem_of_nil | by cbn; unfold grid_len; lia |].
  cbn [app] in *. apply store_ids_length in Hids. rewrite length_fmap in Hids.
  rewrite pure_stop by (unfold grid_len; lia). cbn [fst].
  exists pairs. split; [done|].
  apply submseteq_length_Permutation.
  - apply NoDup_submseteq; [done|]. intros x Hx%Hrange.
    apply elem_of_seqZ. unfold grid_len in Hx. lia.
  - rewrite length_seqZ, length_fmap. lia.
Qed.

(** C6 (continuous ids).  Over a space that is not fully discrete, [N]
    calls from an empty store all succeed and their tokens carry the ids
    [0, 1, ..., N-1] in call order; the store then holds exactly these
    ids, in this order.  In general the id of a token is the number of
    documents the call found in the store. *)
Theorem continuous_ids :
  (∀ sp arg w0 self w N,
     isdiscrete sp = false → results w0 = [] →
     __init__ sp arg w0 = (Ok self, w) →
     ∃ pts : list point,
       length pts = N ∧
       (calls N (self, w)).1 = ok_pair <$> zip (seqZ 0 (Z.of_nat N)) pts ∧
       store_ids (results (calls N (self, w)).2.2) (seqZ 0 (Z.of_nat N))) ∧
  (∀ self w tok p st',
     subspace_grids self = None →
     next (self, w) = (Ok (tok, p), st') →
     tok = token_of (Z.of_nat (length (results w)))).
Proof.
  split.
  - intros sp arg w0 self w N Hdisc Hempty (h & -> & Hres)%init_Ok.
    destruct (calls_spec N (fresh_sampler sp h, w)) as (-> & Hv & _).
    revert Hv.
    unfold view at 2 3; cbn [fst snd fresh_sampler space subspace_grids drawn random_state].
    rewrite Hdisc, Hres, Hempty.
    destruct (pure_continuous_run sp N 0 [] (generators w h) [])
      as (pts & d' & docs' & g' & -> & Hlen & Hids); [apply store_ids_nil | done |].
    cbn [length app fst snd] in *. unfold view. intros [= _ -> _].
    by exists pts.
  - intros self w tok p st' Hgr [Hp _]%next_inv. unfold view in Hp; cbn [fst snd] in Hp.
    apply next_pure_inv in Hp.
    destruct Hp as [(e & [=] & _) | (x & out & [= -> ->] & _ & _ & Hrest)].
    rewrite Hgr in Hrest. by destruct Hrest as (-> & _).
Qed.

(** C8 (the counter [drawn]).  A successful call leaves [drawn] at
    [i + 1], where [i] is the number of documents the call found in the
    store; and along any sequence of calls by one sampler, interleaved
    with insertions made by others into the same store, [drawn] never
    decreases. *)
Theorem drawn_counter :
  (∀ st r st', next st = (Ok r, st') →
     drawn st'.1 = Z.of_nat (length (results st.2)) + 1) ∧
  (∀ sp arg w0 self w acts,
     __init__ sp arg w0 = (Ok self, w) →
     StronglySorted Z.le (drawn self :: drawn_trace acts (self, w))).
Proof.
  split.
  - intros st r st' [Hp _]%next_inv. unfold view in Hp. apply next_pure_inv in Hp.
    by destruct Hp as [(e & [=] & _) | (x & out & _ & -> & _)].
  - intros sp arg w0 self w acts (h & -> & _)%init_Ok.
    apply Sorted_StronglySorted; [apply _|].
    apply (drawn_trace_sorted acts (fresh_sampler sp h, w)). cbn. lia.
Qed.

(** C4 (the only failure).  In the course of an exploration (a sampler as
    the constructor builds it; discrete: a store of distinct integer ids
    inside the grid; otherwise: a store of at least [drawn] documents),
    and with a generator whose [choice] answers on non-empty lists: [next]
    raises [StopIteration] exactly when the space is fully discrete and
    every grid index is recorded; it then leaves the sampler and the world
    as they were; in every other case it succeeds and the store gains
    exactly one document. *)
Theorem exhausted_iff self w :
  choice_total → exploring self w →
  ((next (self, w)).1 = Raise StopIteration ↔
     isdiscrete (space self) = true ∧
     ∀ x, 0 ≤ x < grid_len (ParameterGrid (space self)) → recorded x (results w)) ∧
  ((next (self, w)).1 = Raise StopIteration →
     next (self, w) = (Raise StopIteration, (self, w))) ∧
  ((next (self, w)).1 ≠ Raise StopIteration →
     ∃ tok p self' w' e,
       next (self, w) = (Ok (tok, p), (self', w')) ∧ results w' = results w ++ [e]).
Proof.
  intros Hchoice [Hwf Hstore]. unfold sampler_wf in Hwf.
  destruct (next_spec (self, w)) as ([self' w'] & Hn & Hv & _).
  unfold view in Hn, Hv; cbn [fst snd] in Hn, Hv.
  destruct (isdiscrete (space self)) eqn:Hdisc.
  - set (gr := ParameterGrid (space self)) in *.
    destruct Hstore as (zs & Hids & Hnd & Hrange).
    pose proof (store_ids_length _ _ Hids) as Hlen.
    destruct (decide (grid_len gr ≤ Z.of_nat (length (results w)))) as [Hfull|Hroom].
    + rewrite (next_stop self w gr) by done. cbn [fst]. split_and!; [|done|done].
      split; [intros _|done]. split; [done|]. intros x Hx.
      apply (store_ids_recorded _ zs); [done|].
      apply (full_store (grid_len gr)); [done | done | lia | done].
    + destruct (pure_discrete_step (space self) gr (drawn self) (results w)
                  (generators w (random_state self)) zs)
        as (x & out & g' & Hx & _ & _ & _ & Hp); [done | done | lia |].
      rewrite Hwf, Hp in Hn, Hv. cbn [fst snd] in Hn, Hv. rewrite Hn. cbn [fst].
      split_and!; [|done|].
      * split; [done|]. intros [_ Hall]. exfalso. apply Hroom.
        rewrite <- Hlen. apply covering_store. intros y Hy.
        by apply (store_ids_recorded (results w) zs), Hall.
      * intros _. eexists _, _, self', w', _. split; [done|]. by injection Hv as _ -> _.
  - rewrite Hwf, pure_continuous_step in Hn, Hv by done. cbn [fst snd] in Hn, Hv.
    rewrite Hn. cbn [fst]. split_and!; [|done|].
    + split; [done | by intros [? _]].
    + intros _. eexists _, _, self', w', _. split; [done|]. by injection Hv as _ -> _.
Qed.

(** C5 (no duplicates).  Several discrete samplers share one store whose
    ids are distinct, and call [next] one after the other in any order.
    Each successful call stores an id that no earlier document carries, so
    the ids of the store stay pairwise distinct; and once every index of a
    sampler's grid is recorded, its call raises [StopIteration] and
    nothing changes. *)
Theorem no_duplicates who pool w zs :
  choice_member →
  Forall (λ self, is_Some (subspace_grids self)) pool →
  store_ids (results w) zs → NoDup zs →
  ∃ outs pool' w',
    interleave who pool w = (outs, (pool', w')) ∧
    store_ids (results w') (zs ++ ok_ids outs) ∧
    NoDup (zs ++ ok_ids outs) ∧
    ∀ self gr,
      subspace_grids self = Some gr →
      (∀ x, 0 ≤ x < grid_len gr → recorded x (results w')) →
      next (self, w') = (Raise StopIteration, (self, w')).
Proof.
  intros Hmem. revert pool w zs.
  induction who as [|k rest IH]; intros pool w zs Hpool Hids Hnd; cbn [interleave].
  - exists [], pool, w. cbn. rewrite app_nil_r. split_and!; [done..|].
    intros self gr Hgr Hall. apply (next_stop self w gr Hgr).
    rewrite <- (store_ids_length _ _ Hids). apply covering_store.
    intros x Hx. by apply (store_ids_recorded (results w) zs), Hall.
  - destruct (pool !! k) as [self|] eqn:Hk; [|by apply IH].
    destruct (next (self, w)) as [r [self' w1]] eqn:Hn.
    pose proof (Forall_lookup_1 _ pool k self Hpool Hk) as Hgrid. cbn beta in Hgrid.
    destruct (next_fresh_id self w zs r self' w1 Hmem Hgrid Hids Hn) as [Hg' Hcase].
    assert (Forall (λ s, is_Some (subspace_grids s)) (<[k:=self']> pool)) as Hpool'.
    { apply Forall_insert; [done|]. by rewrite Hg'. }
    destruct Hcase as [[Hr Hres] | (x & Hr & Hx & Hids1)].
    + destruct (IH (<[k:=self']> pool) w1 zs Hpool') as (outs & pool' & w' & -> & H1 & H2 & H3);
        [by rewrite Hres | done |].
      exists (r :: outs), pool', w'. split; [done|].
      by rewrite ok_ids_cons, Hr.
    + destruct (IH (<[k:=self']> pool) w1 (zs ++ [x]) Hpool')
        as (outs & pool' & w' & -> & H1 & H2 & H3); [done | |].
      { apply NoDup_app. split_and!; [done | | apply NoDup_singleton].
        by intros z Hz ->%list_elem_of_singleton. }
      exists (r :: outs), pool', w'. split; [done|].
      rewrite ok_ids_cons, Hr. rewrite <- app_assoc in H1, H2. done.
Qed.

(** C7, as the code has it (the discrete draw).  In a successful call of
    a discrete sampler, the list handed to [choice] is strictly ascending
    and holds exactly the indices of [0, L) that equal no stored id; the
    token carries the index [choice] returned, as a plain [int]; the grid
    assignment at that index supplies the raw values of the stored
    document; and the point returned is the space applied to that
    assignment. *)
Theorem discrete_draw self w gr tok p st' :
  subspace_grids self = Some gr →
  next (self, w) = (Ok (tok, p), st') →
  ∃ ids sample out g',
    doc_ids (results w) = Ok ids ∧
    StronglySorted Z.lt (choices_of (grid_len gr) ids) ∧
    (∀ x, x ∈ choices_of (grid_len gr) ids ↔
          0 ≤ x < grid_len gr ∧ ¬ ∃ v, v ∈ ids ∧ py_eq_int v x = true) ∧
    rs_choice (choices_of (grid_len gr) ids)
      (burn (Z.to_nat (Z.of_nat (length (results w)) - drawn self))
         (generators w (random_state self))) = (Ok sample, g') ∧
    tok = {[ chocolate_id := VInt sample ]} ∧
    grid_getitem gr sample = Ok out ∧
    results st'.2 = results w ++ [entry_of (space self) out sample] ∧
    p = space_call (space self) out.
Proof.
  intros Hgr [Hp _]%next_inv. unfold view in Hp; cbn [fst snd] in Hp.
  apply next_pure_inv in Hp.
  destruct Hp as [(e & [=] & _) | (x & out & [= -> ->] & _ & Hres & Hrest)].
  rewrite Hgr in Hrest. destruct Hrest as (_ & Hout & ids & Hids & Hc).
  exists ids, x, out, (generators st'.2 (random_state st'.1)).
  split_and!; [done | apply choices_of_sorted | | done..].
  intros y. rewrite elem_of_choices_of.
  assert (existsb (λ v, py_eq_int v y) ids = false ↔
          ¬ ∃ v, v ∈ ids ∧ py_eq_int v y = true) as ->; [|done].
  rewrite <- not_true_iff_false, existsb_exists.
  split; intros Hn (v & Hv & Hy); apply Hn; exists v;
    [by rewrite <- list_elem_of_In | by rewrite list_elem_of_In].
Qed.

(** C9, as the code has it (seed resolution).  An existing generator is
    taken by reference and the world is left alone; [None] selects the
    process-wide generator; any other value goes unchecked to the
    generator's constructor: when that accepts it, the sampler refers to a
    newly allocated generator in the state the constructor returned, every
    other generator being untouched, and when it raises, the exception is
    the outcome of the construction. *)
Theorem seed_resolution sp w :
  (∀ h, ∃ self, __init__ sp (ArgRandomState h) w = (Ok self, w) ∧
                random_state self = h ∧ drawn self = 0) ∧
  (∃ self, __init__ sp ArgNone w = (Ok self, w) ∧
           random_state self = numpy_random ∧ drawn self = 0) ∧
  (∀ v, match rs_init v with
        | Ok g =>
            ∃ self w', __init__ sp (ArgSeed v) w = (Ok self, w') ∧
              random_state self = allocated w ∧ drawn self = 0 ∧
              generators w' (random_state self) = g ∧
              (∀ k, k ≠ allocated w → generators w' k = generators w k) ∧
              results w' = results w ∧ allocated w' = S (allocated w)
        | Raise e => __init__ sp (ArgSeed v) w = (Raise e, w)
        end).
Proof.
  split_and!.
  - intros h. by eexists.
  - by eexists.
  - intros v. unfold __init__. destruct (rs_init v) as [g|e]; [|done].
    eexists _, _. split; [reflexivity|]. cbn.
    split_and!; [done | done | by rewrite bool_decide_eq_true_2 | | done | done].
    intros k Hk. by rewrite bool_decide_eq_false_2.
Qed.

(** C10 (keys of a stored document).  Provided every assignment of the
    grid has one value per dimension name, the document a successful call
    inserts has as keys the dimension names and ["_chocolate_id"], and
    under ["_chocolate_id"] the plain-int id of the token -- also when a
    dimension bears that name, whose raw value, present before the token
    is merged in, is thereby replaced. *)
Theorem record_keys self w tok p st' :
  (∀ gr, subspace_grids self = Some gr → grid_covers (space self) gr) →
  next (self, w) = (Ok (tok, p), st') →
  ∃ id out,
    tok = token_of id ∧
    results st'.2 = results w ++ [entry_of (space self) out id] ∧
    dom (entry_of (space self) out id) =
      list_to_set (names (space self)) ∪ {[chocolate_id]} ∧
    entry_of (space self) out id !! chocolate_id = Some (VInt id) ∧
    (chocolate_id ∈ names (space self) →
     ∃ r, dict_of_zip (names (space self)) out !! chocolate_id = Some (VRaw r)).
Proof.
  intros Hgrid [Hp _]%next_inv. unfold view in Hp; cbn [fst snd] in Hp.
  apply next_pure_inv in Hp.
  destruct Hp as [(e & [=] & _) | (x & out & [= -> ->] & _ & Hres & Hrest)].
  assert (length out = length (names (space self))) as Hlen.
  { destruct (subspace_grids self) as [gr|] eqn:Hgr.
    - destruct Hrest as (_ & Hout%grid_getitem_elem & _).
      specialize (Hgrid gr eq_refl). unfold grid_covers in Hgrid.
      rewrite Forall_forall in Hgrid. by apply Hgrid.
    - destruct Hrest as (_ & _ & Hr).
      pose proof (length_rand_seq (Z.to_nat (space_len (space self)))
                    (burn (Z.to_nat (space_len (space self) *
                       (Z.of_nat (length (results w)) - drawn self)))
                       (generators w (random_state self)))) as Hl.
      rewrite Hr in Hl. cbn in Hl. unfold space_len in Hl. lia. }
  assert (dom (dict_of_zip (names (space self)) out) = list_to_set (names (space self)))
    as Hdom by (apply dom_dict_of_zip; lia).
  exists x, out.
  split; [reflexivity|]. split; [exact Hres|]. split; [|split; [apply entry_of_id|]].
  - unfold entry_of, dict_update, token_of.
    rewrite dom_union_L, dom_singleton_L, Hdom. apply union_comm_L.
  - intros Hin.
    assert (chocolate_id ∈ dom (dict_of_zip (names (space self)) out)) as [v Hv]%elem_of_dom
      by (rewrite Hdom; by apply elem_of_list_to_set).
    destruct (dict_of_zip_raw _ _ _ _ Hv) as [r ->]. by exists r.
Qed.

(** * Further properties of [next] *)

(** ** What a run adds to the store *)

Lemma doc_ids_Raise docs e : doc_ids docs = Raise e → e = KeyError.
Proof.
  induction docs as [|doc rest IH]; cbn [doc_ids]; [done|].
  unfold dict_getitem. destruct (doc !! chocolate_id); [|by intros [= <-]].
  destruct (doc_ids rest); [done|]. intros [= <-]. by apply IH.
Qed.

Lemma doc_ids_missing docs :
  Exists (λ doc, doc !! chocolate_id = None) docs ↔ doc_ids docs = Raise KeyError.
Proof.
  induction docs as [|doc rest IH]; cbn [doc_ids].
  - split; [by intros ?%Exists_nil | done].
  - rewrite Exists_cons, IH. unfold dict_getitem.
    destruct (doc !! chocolate_id) as [v|]; [|by split; [|left]].
    destruct (doc_ids rest) as [vs|e] eqn:Hrest.
    + split; [by intros [|] | done].
    + apply doc_ids_Raise in Hrest as ->. split; [done | by right].
Qed.

Lemma next_adds st :
  let '(r, st') := next st in
  (ok_ids [r] = [] ∧ results st'.2 = results st.2) ∨
  (∃ x e, ok_ids [r] = [x] ∧ results st'.2 = results st.2 ++ [e] ∧
          e !! chocolate_id = Some (VInt x)).
Proof.
  destruct (next st) as [r st'] eqn:Hn. apply next_inv in Hn as [Hp _].
  unfold view in Hp. apply next_pure_inv in Hp.
  destruct Hp as [(e & -> & -> & _) | (x & out & -> & _ & -> & _)]; [by left|].
  right. exists x, (entry_of (space st.1) out x). split_and!; [|done|apply entry_of_id].
  unfold ok_ids. cbn [omap list_omap]. by rewrite token_id_of.
Qed.

(** X1.  A run only ever appends to the store: after [n] calls, whatever
    their outcomes, the documents found at the start are still there, in
    place, followed by one document per successful call, in call order,
    each carrying the id of the token that call returned. *)
Theorem calls_append n st :
  ∃ new, results (calls n st).2.2 = results st.2 ++ new ∧
         store_ids new (ok_ids (calls n st).1).
Proof.
  revert st. induction n as [|n IH]; intros st; cbn [calls].
  - exists []. by rewrite app_nil_r.
  - pose proof (next_adds st) as Hstep. destruct (next st) as [r st1].
    destruct (IH st1) as (new & Hres & Hids).
    destruct (calls n st1) as [rs st2]. cbn [fst snd] in *. rewrite ok_ids_cons.
    destruct Hstep as [[-> Hr] | (x & e & -> & Hr & He)].
    + exists new. by rewrite Hres, Hr.
    + exists (e :: new). rewrite Hres, Hr, <- app_assoc. split; [done|].
      unfold store_ids in *. cbn. unfold dict_getitem. by rewrite He, Hids.
Qed.

(** X2.  A run of one sampler touches no generator but its own: every
    other generator of the world is in the state it was in, no generator
    is allocated, and the sampler keeps its space, its grid and its
    generator. *)
Theorem calls_touch_one_generator n self w :
  space (calls n (self, w)).2.1 = space self ∧
  random_state (calls n (self, w)).2.1 = random_state self ∧
  subspace_grids (calls n (self, w)).2.1 = subspace_grids self ∧
  allocated (calls n (self, w)).2.2 = allocated w ∧
  ∀ k, k ≠ random_state self →
       generators (calls n (self, w)).2.2 k = generators w k.
Proof. by destruct (calls_spec n (self, w)) as (_ & _ & Hf). Qed.

(** ** The order of enumeration *)

Lemma doc_ids_perm_cases docs docs' :
  docs ≡ₚ docs' →
  match doc_ids docs, doc_ids docs' with
  | Ok vs, Ok vs' => vs ≡ₚ vs'
  | Raise e, Raise e' => e = e'
  | _, _ => False
  end.
Proof.
  intros Hp. destruct (doc_ids docs) as [vs|e] eqn:H1.
  - by destruct (doc_ids_perm docs docs' vs Hp H1) as (vs' & -> & Hq).
  - destruct (doc_ids docs') as [vs'|e'] eqn:H2.
    + symmetry in Hp. destruct (doc_ids_perm docs' docs vs' Hp H2) as (? & ? & _).
      congruence.
    + apply doc_ids_Raise in H1, H2. congruence.
Qed.

Lemma next_pure_perm sp grids d docs docs' g :
  docs ≡ₚ docs' →
  (next_pure sp grids (d, docs, g)).1 = (next_pure sp grids (d, docs', g)).1 ∧
  (next_pure sp grids (d, docs, g)).2.1.1 = (next_pure sp grids (d, docs', g)).2.1.1 ∧
  (next_pure sp grids (d, docs, g)).2.2 = (next_pure sp grids (d, docs', g)).2.2 ∧
  (next_pure sp grids (d, docs, g)).2.1.2 ≡ₚ (next_pure sp grids (d, docs', g)).2.1.2.
Proof.
  intros Hp. cbn [next_pure]. rewrite <- (Permutation_length Hp).
  destruct grids as [gr|].
  - destruct (_ >=? _); [done|].
    pose proof (doc_ids_perm_cases docs docs' Hp) as Hids.
    destruct (doc_ids docs) as [vs|e], (doc_ids docs') as [vs'|e']; try done.
    2:{ by subst. }
    rewrite <- (choices_of_perm _ _ _ Hids).
    destruct (rs_choice _ _) as [[x|e] g2]; [|done].
    destruct (grid_getitem gr x); [|done]. cbn. split_and!; [done..|].
    by apply Permutation_app_tail.
  - case_bool_decide; [|done]. destruct (rand_seq _ _) as [out g2]. cbn.
    split_and!; [done..|]. by apply Permutation_app_tail.
Qed.

(** X3.  The order in which the connection enumerates its documents is of
    no consequence: over two stores holding the same documents in
    different orders, with the generator in the same state, a call has the
    same outcome (token and point, or exception), leaves [drawn] and the
    generator in the same state, and the stores again hold the same
    documents. *)
Theorem enumeration_order_is_irrelevant self w1 w2 :
  results w1 ≡ₚ results w2 →
  generators w1 (random_state self) = generators w2 (random_state self) →
  (next (self, w1)).1 = (next (self, w2)).1 ∧
  drawn (next (self, w1)).2.1 = drawn (next (self, w2)).2.1 ∧
  generators (next (self, w1)).2.2 (random_state self) =
    generators (next (self, w2)).2.2 (random_state self) ∧
  results (next (self, w1)).2.2 ≡ₚ results (next (self, w2)).2.2.
Proof.
  intros Hp Hg.
  destruct (next_spec (self, w1)) as (st1 & -> & Hv1 & (_ & Hh1 & _)).
  destruct (next_spec (self, w2)) as (st2 & -> & Hv2 & (_ & Hh2 & _)).
  unfold view in *. cbn [fst snd] in *. rewrite Hg in *.
  destruct (next_pure_perm (space self) (subspace_grids self) (drawn self)
              (results w1) (results w2) (generators w2 (random_state self)) Hp)
    as (Hr & Hd & Hg' & Hdocs).
  rewrite <- Hv1, <- Hv2 in Hd, Hg', Hdocs. cbn [fst snd] in *.
  rewrite Hh1, Hh2 in Hg'. done.
Qed.

(** ** A document without an id *)

Lemma pure_missing_id sp gr d docs g :
  Z.of_nat (length docs) < grid_len gr →
  Exists (λ doc, doc !! chocolate_id = None) docs →
  next_pure sp (Some gr) (d, docs, g) =
    (Raise KeyError, (d, docs, burn (Z.to_nat (Z.of_nat (length docs) - d)) g)).
Proof.
  intros Hlt Hex%doc_ids_missing. cbn [next_pure].
  destruct (Z.geb_spec (Z.of_nat (length docs)) (grid_len gr)); [lia|].
  by rewrite Hex.
Qed.

Lemma pure_missing_id_run sp gr d docs n g :
  Z.of_nat (length docs) < grid_len gr →
  Exists (λ doc, doc !! chocolate_id = None) docs →
  calls_pure sp (Some gr) n (d, docs, g) =
    (replicate n (Raise KeyError),
     (d, docs, burn (n * Z.to_nat (Z.of_nat (length docs) - d)) g)).
Proof.
  intros Hlt Hex. revert g. induction n as [|n IH]; intros g; [done|].
  cbn [calls_pure]. rewrite pure_missing_id, IH by done.
  by rewrite <- burn_add.
Qed.

(** X4.  When some stored document has no ["_chocolate_id"] and the grid
    is not yet used up, every call of a discrete sampler raises
    [KeyError]: nothing is inserted and [drawn] stays, but the generator
    has by then been burnt, and since [drawn] stays each further call
    burns the same number of draws again. *)
Theorem missing_id_burns_again n self w gr :
  subspace_grids self = Some gr →
  Z.of_nat (length (results w)) < grid_len gr →
  Exists (λ doc, doc !! chocolate_id = None) (results w) →
  (calls n (self, w)).1 = replicate n (Raise KeyError) ∧
  results (calls n (self, w)).2.2 = results w ∧
  drawn (calls n (self, w)).2.1 = drawn self ∧
  generators (calls n (self, w)).2.2 (random_state self) =
    burn (n * Z.to_nat (Z.of_nat (length (results w)) - drawn self))
      (generators w (random_state self)).
Proof.
  intros Hgr Hlt Hex.
  destruct (calls_spec n (self, w)) as (-> & Hv & (_ & Hh & _)).
  unfold view in *. cbn [fst snd] in *. rewrite Hh, Hgr in *.
  rewrite pure_missing_id_run in * by done. cbn [fst snd] in *.
  injection Hv as Hd Hres Hg. by rewrite Hd, Hres, Hg.
Qed.

(** ** Exhaustion goes by the number of documents *)

(** X5.  Whether a discrete sampler is exhausted is decided by the number
    of stored documents alone, not by which indices they record: over a
    store of integer ids, repeated or foreign ones included, a call
    raises [StopIteration] and changes nothing as soon as there are [L]
    documents, and with fewer it succeeds with an index of the grid that
    no document carries. *)
Theorem stop_is_by_count self w gr zs :
  choice_total → subspace_grids self = Some gr → store_ids (results w) zs →
  if decide (grid_len gr ≤ Z.of_nat (length (results w)))
  then next (self, w) = (Raise StopIteration, (self, w))
  else ∃ x p st', next (self, w) = (Ok (token_of x, p), st') ∧
                  0 ≤ x < grid_len gr ∧ x ∉ zs.
Proof.
  intros Hchoice Hgr Hids. case_decide as Hfull; [by apply (next_stop self w gr)|].
  destruct (next_spec (self, w)) as (st' & Hn & _).
  unfold view in Hn; cbn [fst snd] in Hn. rewrite Hgr in Hn.
  destruct (pure_discrete_step (space self) gr (drawn self) (results w)
              (generators w (random_state self)) zs)
    as (x & out & g' & Hx & _ & _ & _ & Hp); [done | done | lia |].
  rewrite Hp in Hn. apply elem_of_choices_ints in Hx as [Hx1 Hx2].
  by exists x, (space_call (space self) out), st'.
Qed.

(** ** The stored document *)

Lemma fst_zip_take {A B} (ks : list A) (vs : list B) :
  (zip ks vs).*1 = take (length vs) ks.
Proof.
  revert vs. induction ks as [|k ks IH]; intros [|v vs]; cbn; [done..|].
  by rewrite IH.
Qed.

Lemma foldl_insert_other (kvs : list (string * raw)) (acc : entry) k :
  k ∉ kvs.*1 →
  foldl (λ d kv, <[kv.1 := VRaw kv.2]> d) acc kvs !! k = acc !! k.
Proof.
  revert acc. induction kvs as [|[k' v'] kvs IH]; intros acc Hk; [done|].
  cbn in *. apply not_elem_of_cons in Hk as [Hne Hk].
  rewrite IH by done. by rewrite lookup_insert_ne.
Qed.

Lemma foldl_insert_lookup (kvs : list (string * raw)) (acc : entry) k v :
  NoDup kvs.*1 → (k, v) ∈ kvs →
  foldl (λ d kv, <[kv.1 := VRaw kv.2]> d) acc kvs !! k = Some (VRaw v).
Proof.
  revert acc. induction kvs as [|[k' v'] kvs IH]; intros acc Hnd Hin.
  - by apply elem_of_nil in Hin.
  - cbn in *. apply NoDup_cons in Hnd as [Hk' Hnd].
    apply elem_of_cons in Hin as [[= -> ->] | Hin]; [|by apply IH].
    rewrite foldl_insert_other by done. apply lookup_insert_eq.
Qed.

Lemma dict_of_zip_lookup ks (vs : list raw) i k v :
  NoDup ks → ks !! i = Some k → vs !! i = Some v →
  dict_of_zip ks vs !! k = Some (VRaw v).
Proof.
  intros Hnd Hk Hv. apply foldl_insert_lookup.
  - rewrite fst_zip_take. eapply sublist_NoDup; [done | apply sublist_take].
  - apply (list_elem_of_lookup_2 _ i). by apply lookup_zip_Some.
Qed.

Lemma dom_dict_of_zip_take ks (vs : list raw) :
  dom (dict_of_zip ks vs) = list_to_set (take (length vs) ks).
Proof.
  unfold dict_of_zip.
  rewrite dom_foldl_insert, fst_zip_take, dom_empty_L. apply union_empty_l_L.
Qed.

(** X6.  The raw vector of a draw can be read back from the document the
    call stored: with pairwise distinct dimension names, none of them
    ["_chocolate_id"], the document holds under the i-th name the i-th raw
    value, and the point returned is the space applied to that vector.
    Off the grid, the vector has one value per name. *)
Theorem stored_vector_reads_back self w tok p st' :
  NoDup (names (space self)) → chocolate_id ∉ names (space self) →
  next (self, w) = (Ok (tok, p), st') →
  ∃ e out,
    results st'.2 = results w ++ [e] ∧
    p = space_call (space self) out ∧
    (∀ i k v, names (space self) !! i = Some k → out !! i = Some v →
              e !! k = Some (VRaw v)) ∧
    (subspace_grids self = None → length out = length (names (space self))).
Proof.
  intros Hnd Hid [Hp _]%next_inv. unfold view in Hp; cbn [fst snd] in Hp.
  apply next_pure_inv in Hp.
  destruct Hp as [(e & [=] & _) | (x & out & [= -> ->] & _ & Hres & Hrest)].
  exists (entry_of (space self) out x), out. split_and!; [done | done | |].
  - intros i k v Hk Hv. unfold entry_of, dict_update, token_of.
    rewrite lookup_union_r.
    + by apply (dict_of_zip_lookup _ _ i).
    + apply lookup_singleton_ne. intros <-. apply Hid.
      by eapply list_elem_of_lookup_2.
  - intros Hgr. rewrite Hgr in Hrest. destruct Hrest as (_ & _ & Hr).
    pose proof (length_rand_seq (Z.to_nat (space_len (space self)))
                  (burn (Z.to_nat (space_len (space self) *
                     (Z.of_nat (length (results w)) - drawn self)))
                     (generators w (random_state self)))) as Hl.
    rewrite Hr in Hl. cbn in Hl. unfold space_len in Hl. lia.
Qed.

(** X7.  The keys of a stored document are the id key and the dimension
    names that found a value: when the grid assignment is shorter than
    the list of names, the names beyond its length are left out, without
    any error. *)
Theorem stored_keys_stop_at_the_vector self w gr tok p st' :
  subspace_grids self = Some gr →
  next (self, w) = (Ok (tok, p), st') →
  ∃ x out,
    tok = token_of x ∧ grid_getitem gr x = Ok out ∧
    results st'.2 = results w ++ [entry_of (space self) out x] ∧
    dom (entry_of (space self) out x) =
      list_to_set (take (length out) (names (space self))) ∪ {[chocolate_id]}.
Proof.
  intros Hgr [Hp _]%next_inv. unfold view in Hp; cbn [fst snd] in Hp.
  apply next_pure_inv in Hp.
  destruct Hp as [(e & [=] & _) | (x & out & [= -> ->] & _ & Hres & Hrest)].
  rewrite Hgr in Hrest. destruct Hrest as (_ & Hout & _).
  exists x, out. split; [reflexivity|]. split; [exact Hout|]. split; [exact Hres|].
  unfold entry_of, dict_update, token_of.
  rewrite dom_union_L, dom_singleton_L, dom_dict_of_zip_take. apply union_comm_L.
Qed.

(** ** A counter ahead of the store *)

(** X8.  When the store holds fewer documents than the sampler has
    counted (documents were removed), the two branches differ.  Off the
    grid the call raises [ValueError], the burning draw being asked for
    an array of negative size, and store, [drawn] and generator stay as
    they were.  On the grid nothing is burnt: the call goes straight to
    [choice], and a success lowers [drawn] to [i + 1]. *)
Theorem counter_ahead_of_store self w :
  Z.of_nat (length (results w)) < drawn self →
  match subspace_grids self with
  | None =>
      (next (self, w)).1 = Raise ValueError ∧
      results (next (self, w)).2.2 = results w ∧
      drawn (next (self, w)).2.1 = drawn self ∧
      generators (next (self, w)).2.2 (random_state self) =
        generators w (random_state self)
  | Some gr =>
      ∀ tok p st', next (self, w) = (Ok (tok, p), st') →
        drawn st'.1 = Z.of_nat (length (results w)) + 1 ∧
        drawn st'.1 ≤ drawn self ∧
        ∃ ids x, doc_ids (results w) = Ok ids ∧
          rs_choice (choices_of (grid_len gr) ids) (generators w (random_state self)) =
            (Ok x, generators st'.2 (random_state self))
  end.
Proof.
  intros Hahead. destruct (subspace_grids self) as [gr|] eqn:Hgr.
  - intros tok p st' [Hp (_ & Hh & _)]%next_inv.
    unfold view in Hp; cbn [fst snd] in *. rewrite Hh in Hp.
    apply next_pure_inv in Hp.
    destruct Hp as [(e & [=] & _) | (x & out & _ & -> & _ & Hrest)].
    rewrite Hgr in Hrest. destruct Hrest as (_ & _ & ids & Hids & Hc).
    split; [done|]. split; [lia|]. exists ids, x. split; [done|].
    replace (Z.to_nat (Z.of_nat (length (results w)) - drawn self)) with 0%nat in Hc by lia.
    by rewrite burn_0 in Hc.
  - destruct (next_spec (self, w)) as (st' & -> & Hv & (_ & Hh & _)).
    unfold view in *; cbn [fst snd next_pure] in *. rewrite Hgr in *.
    cbn [next_pure] in *. rewrite bool_decide_eq_false_2 in * by lia.
    cbn [fst snd] in *. rewrite Hh in Hv. by injection Hv as -> -> ->.
Qed.

(** ** One generator under two samplers *)

Lemma to_nat_mul_len sp (c : nat) :
  Z.to_nat (space_len sp * Z.of_nat c) = (Z.to_nat (space_len sp) * c)%nat.
Proof. pose proof (space_len_nonneg sp). rewrite Z2Nat.inj_mul by lia. lia. Qed.

Lemma continuous_run_view sp g0 k :
  ∃ docs, length docs = k ∧
    (calls_pure sp None k (0, [], g0)).2 =
      (Z.of_nat k, docs, burn (Z.to_nat (space_len sp) * k) g0).
Proof.
  pose proof (scratch_continuous_run sp g0 k) as [Hd Hg].
  destruct (pure_continuous_run sp k 0 [] g0 []) as (pts & d' & docs' & g' & Hrun & _ & Hids);
    [apply store_ids_nil | done |].
  rewrite Hrun in *. cbn [fst snd app length] in *.
  apply store_ids_length in Hids. rewrite length_seqZ in Hids.
  exists docs'. split; [lia|]. subst d' g'. rewrite <- Hids.
  by rewrite Nat2Z.id, to_nat_mul_len.
Qed.

(** X9.  Handing one generator to two samplers makes the second burn
    what the first has already consumed.  Off the grid, after a sampler
    has made [k] calls from an empty store, the first call of a second
    sampler built on the same generator returns id [k] with the point
    drawn after [2 n k] scalar draws of that generator, whereas a second
    sampler whose own generator starts in the same state returns the point
    drawn after [n k] ([n] dimensions). *)
Theorem shared_generator_is_burnt_twice sp h h' gens a k :
  isdiscrete sp = false → h' ≠ h → gens h' = gens h →
  let n := Z.to_nat (space_len sp) in
  let wk := (calls k (fresh_sampler sp h, mkWorld [] gens a)).2.2 in
  (next (fresh_sampler sp h, wk)).1 =
    Ok (token_of (Z.of_nat k),
        space_call sp (rand_seq n (burn (2 * (n * k)) (gens h))).1) ∧
  (next (fresh_sampler sp h', wk)).1 =
    Ok (token_of (Z.of_nat k),
        space_call sp (rand_seq n (burn (n * k) (gens h))).1).
Proof.
  intros Hdisc Hne Hsame n wk.
  destruct (calls_spec k (fresh_sampler sp h, mkWorld [] gens a))
    as (_ & Hv & (_ & Hh & _ & _ & Hother)).
  unfold view in Hv. cbn [fst snd fresh_sampler space subspace_grids drawn random_state
                          results generators] in Hv, Hh, Hother.
  rewrite Hdisc, Hh in Hv.
  destruct (continuous_run_view sp (gens h) k) as (docs & Hlen & Hrun).
  rewrite Hrun in Hv. injection Hv as _ Hres Hg. fold wk in Hres, Hg, Hother.
  split.
  - destruct (next_spec (fresh_sampler sp h, wk)) as (st' & -> & _).
    unfold view. cbn [fst snd fresh_sampler space subspace_grids drawn random_state].
    rewrite Hdisc, Hres, Hg, pure_continuous_step by lia. cbn [fst].
    rewrite Hlen, Z.sub_0_r, to_nat_mul_len, <- burn_add. fold n.
    by replace (n * k + n * k)%nat with (2 * (n * k))%nat by lia.
  - destruct (next_spec (fresh_sampler sp h', wk)) as (st' & -> & _).
    unfold view. cbn [fst snd fresh_sampler space subspace_grids drawn random_state].
    rewrite Hdisc, Hres, (Hother h' Hne), Hsame, pure_continuous_step by lia. cbn [fst].
    by rewrite Hlen, Z.sub_0_r, to_nat_mul_len.
Qed.

(** ** Samplers taking turns *)

Lemma position_0 sp g0 : position sp g0 0 = g0.
Proof. unfold position. by rewrite Z.mul_0_r. Qed.

(** The lead succeeds and remains the lead of the longer store; a sampler
    in step, once it has burnt its arrears, is where the lead is, and its
    call ends the same way. *)
Lemma follow_pure sp g0 d docs :
  0 ≤ d ≤ Z.of_nat (length docs) →
  ∃ r e,
    next_pure sp None (lead sp g0 docs) = (Ok r, lead sp g0 (docs ++ [e])) ∧
    next_pure sp None (d, docs, position sp g0 d) = (Ok r, lead sp g0 (docs ++ [e])).
Proof.
  intros Hd. unfold lead, position. pose proof (space_len_nonneg sp).
  rewrite !pure_continuous_step by lia. cbn zeta.
  set (i := Z.of_nat (length docs)) in *.
  rewrite <- !burn_add, <- !Z2Nat.inj_add by nia.
  replace (space_len sp * i + space_len sp * (i - i)) with (space_len sp * i) by lia.
  replace (space_len sp * d + space_len sp * (i - d)) with (space_len sp * i) by lia.
  eexists _, _. rewrite length_app. cbn [length].
  replace (Z.of_nat (length docs + 1)) with (i + 1) by lia.
  replace (space_len sp * (i + 1)) with (space_len sp * i + space_len sp) by lia.
  done.
Qed.

Lemma team_step sp g0 pool w k self r self' w' :
  team sp g0 pool w → pool !! k = Some self →
  next (self, w) = (r, (self', w')) →
  team sp g0 (<[k:=self']> pool) w' ∧
  next_pure sp None (lead sp g0 (results w)) = (r, lead sp g0 (results w')).
Proof.
  intros (Hnd & Hall) Hk [Hp Hf]%next_inv.
  pose proof (Forall_lookup_1 _ _ _ _ Hall Hk) as (Hsp & Hgr & Hd & Hg).
  destruct Hf as (Hs' & Hh' & Hg' & _ & Hother). cbn [fst snd] in *.
  unfold view in Hp. cbn [fst snd] in Hp. rewrite Hsp, Hgr, Hg, Hh' in Hp.
  destruct (follow_pure sp g0 (drawn self) (results w) Hd) as (r1 & e & Hl & Hfollow).
  rewrite Hfollow in Hp. unfold lead in Hp. injection Hp as <- Hd1 Hr1 Hg1.
  split; [|by rewrite Hl, <- Hr1]. split.
  - rewrite list_fmap_insert, Hh'. rewrite list_insert_id; [done|].
    by rewrite list_lookup_fmap, Hk.
  - apply Forall_lookup. intros j s Hj.
    destruct (decide (j = k)) as [->|Hne].
    + rewrite list_lookup_insert_eq in Hj by (by eapply lookup_lt_Some).
      injection Hj as <-.
      unfold in_step. rewrite Hs', Hg', Hh', <- Hr1, <- Hd1, <- Hg1.
      split_and!; [done | done | lia | lia | done].
    + rewrite list_lookup_insert_ne in Hj by done.
      pose proof (Forall_lookup_1 _ _ _ _ Hall Hj) as (Hsp_j & Hgr_j & Hd_j & Hg_j).
      unfold in_step. rewrite <- Hr1, length_app. cbn [length].
      split_and!; [done | done | lia | lia |].
      rewrite Hother; [done|]. intros Heq. apply Hne.
      eapply (NoDup_lookup _ j k (random_state s) Hnd).
      * by rewrite list_lookup_fmap, Hj.
      * by rewrite list_lookup_fmap, Hk, Heq.
Qed.

Lemma team_run sp g0 :
  ∀ who pool w,
    team sp g0 pool w → Forall (λ k, (k < length pool)%nat) who →
    (interleave who pool w).1 =
      (calls_pure sp None (length who) (lead sp g0 (results w))).1.
Proof.
  induction who as [|k rest IH]; intros pool w Hteam Hvalid; [done|].
  apply Forall_cons in Hvalid as [Hk Hvalid].
  cbn [interleave calls_pure length].
  destruct (lookup_lt_is_Some_2 pool k Hk) as [self Hself]. rewrite Hself.
  destruct (next (self, w)) as [r [self' w']] eqn:Hn.
  destruct (team_step sp g0 pool w k self r self' w' Hteam Hself Hn) as [Hteam' ->].
  specialize (IH (<[k:=self']> pool) w' Hteam').
  rewrite length_insert in IH. specialize (IH Hvalid).
  destruct (interleave rest _ w') as [rs fin].
  destruct (calls_pure _ _ _ (lead sp g0 (results w'))) as [rs' v2].
  cbn [fst] in *. by rewrite IH.
Qed.

(** X10.  Off the grid, samplers built over one empty store, each with a
    generator of its own started in the same state, and calling [next] in
    turns in any order, together hand out the very sequence of tokens and
    points that a single such sampler hands out alone: each call first
    burns what the others have drawn since its sampler last drew.  No
    assumption on the generator is needed: burning and drawing are both
    made of scalar draws. *)
Theorem turns_make_one_run sp g0 handles gens a who h1 gens1 a1 :
  isdiscrete sp = false →
  NoDup handles → (∀ h, h ∈ handles → gens h = g0) → gens1 h1 = g0 →
  Forall (λ k, (k < length handles)%nat) who →
  (interleave who (fresh_sampler sp <$> handles) (mkWorld [] gens a)).1 =
    (calls (length who) (fresh_sampler sp h1, mkWorld [] gens1 a1)).1.
Proof.
  intros Hdisc Hnd Hgens Hg1 Hvalid.
  destruct (calls_spec (length who) (fresh_sampler sp h1, mkWorld [] gens1 a1)) as (-> & _).
  rewrite (team_run sp g0).
  - unfold view, lead. cbn. by rewrite Hdisc, position_0, Hg1.
  - split.
    + assert (random_state <$> (fresh_sampler sp <$> handles) = handles) as ->; [|done].
      rewrite <- list_fmap_compose. rewrite <- (list_fmap_id handles) at 2.
      by apply list_fmap_ext.
    + apply Forall_fmap, Forall_forall. intros h Hh.
      unfold in_step. cbn. rewrite Hdisc, position_0.
      split_and!; [done | done | lia | lia | by apply Hgens].
  - by rewrite length_fmap.
Qed.

Lemma pure_stream sp g0 k :
  let n := Z.to_nat (space_len sp) in
  ∃ vecs,
    calls_pure sp None k (0, [], g0) =
      (ok_pair <$> zip (seqZ 0 (Z.of_nat k)) (space_call sp <$> vecs),
       (Z.of_nat k, zip_with (entry_of sp) vecs (seqZ 0 (Z.of_nat k)), burn (n * k) g0)) ∧
    length vecs = k ∧
    Forall (λ v, length v = n) vecs ∧
    concat vecs = (rand_seq (n * k) g0).1.
Proof.
  intros n. induction k as [|k (vecs & Hrun & Hlen & Hall & Hcat)].
  - exists []. rewrite Nat.mul_0_r. cbn. by split_and!.
  - rewrite calls_pure_snoc, Hrun.
    assert (Hdocs : length (zip_with (entry_of sp) vecs (seqZ 0 (Z.of_nat k))) = k).
    { rewrite length_zip_with, length_seqZ. lia. }
    rewrite pure_continuous_step by lia. cbn zeta.
    rewrite Hdocs, Z.sub_diag, Z.mul_0_r. cbn [Z.to_nat]. rewrite burn_0. fold n.
    set (out := (rand_seq n (burn (n * k) g0)).1).
    assert (Hseq : seqZ 0 (Z.of_nat (S k)) = seqZ 0 (Z.of_nat k) ++ [Z.of_nat k]).
    { rewrite Nat2Z.inj_succ, <- Z.add_1_r, seqZ_app by lia. done. }
    exists (vecs ++ [out]). rewrite Hseq. split_and!.
    + f_equal.
      * rewrite fmap_app, zip_with_app, fmap_app; [done|].
        rewrite length_seqZ, length_fmap. lia.
      * f_equal; [f_equal; [lia|] |].
        -- rewrite zip_with_app; [done|]. rewrite length_seqZ. lia.
        -- rewrite <- burn_add. f_equal. lia.
    + rewrite length_app. cbn [length]. lia.
    + apply Forall_app. split; [done|]. apply Forall_singleton, length_rand_seq.
    + rewrite concat_app. cbn [concat]. rewrite app_nil_r, Hcat.
      replace (n * S k)%nat with (n * k + n)%nat by lia. by rewrite rand_seq_app.
Qed.

(** X11.  From an empty store a sampler of a space that is not discrete
    hands out the generator's stream cut into consecutive vectors of one
    draw per dimension: [k] calls return the space's mapping of these
    vectors under the ids [0 .. k-1], store each vector zipped with the
    names under its id, skip no draw and use none twice, and leave the
    generator [n * k] draws on. *)
Theorem continuous_run_is_the_stream sp h gens a k :
  isdiscrete sp = false →
  let n := Z.to_nat (space_len sp) in
  let run := calls k (fresh_sampler sp h, mkWorld [] gens a) in
  ∃ vecs : list (list raw),
    run.1 = ok_pair <$> zip (seqZ 0 (Z.of_nat k)) (space_call sp <$> vecs) ∧
    results run.2.2 = zip_with (entry_of sp) vecs (seqZ 0 (Z.of_nat k)) ∧
    length vecs = k ∧
    Forall (λ v, length v = n) vecs ∧
    concat vecs = (rand_seq (n * k) (gens h)).1 ∧
    generators run.2.2 h = burn (n * k) (gens h).
Proof.
  intros Hdisc n run.
  destruct (calls_spec k (fresh_sampler sp h, mkWorld [] gens a))
    as (Hout & Hv & (_ & Hh & _)).
  fold run in Hout, Hv, Hh.
  unfold view in Hv, Hout. cbn [fst snd fresh_sampler space subspace_grids drawn random_state
                          results generators] in Hv, Hout, Hh.
  rewrite Hdisc in Hv, Hout. rewrite Hh in Hv.
  destruct (pure_stream sp (gens h) k) as (vecs & Hrun & Hlen & Hall & Hcat).
  rewrite Hrun in Hv, Hout. cbn [fst snd] in Hv, Hout.
  injection Hv as _ Hres Hg. exists vecs. by split_and!.
Qed.

Lemma py_eq_int_single (v : value raw) x y :
  eq_int_single → py_eq_int v x = true → py_eq_int v y = true → x = y.
Proof.
  intros Hs. destruct v as [z|z|r]; cbn [py_eq_int].
  - by intros <-%bool_decide_eq_true <-%bool_decide_eq_true.
  - by intros <-%bool_decide_eq_true <-%bool_decide_eq_true.
  - apply Hs.
Qed.

Lemma covered_short (v : value raw) l :
  eq_int_single →
  (length (filter (λ x, py_eq_int v x = true) (seqZ 0 l)) ≤ 1)%nat.
Proof.
  intros Hs.
  assert (Hnd : NoDup (filter (λ x, py_eq_int v x = true) (seqZ 0 l)))
    by apply NoDup_filter, NoDup_seqZ.
  assert (Hall : ∀ x, x ∈ filter (λ x, py_eq_int v x = true) (seqZ 0 l) →
                      py_eq_int v x = true)
    by (by intros x [Hx _]%list_elem_of_filter).
  destruct (filter _ _) as [|x [|y t]]; cbn [length]; [lia | lia |].
  exfalso. apply NoDup_cons in Hnd as [Hx _]. apply Hx.
  rewrite (py_eq_int_single v x y Hs); [left | apply Hall; left | apply Hall; right; left].
Qed.

Lemma choices_room l ids :
  eq_int_single → Z.of_nat (length ids) < l → choices_of l ids ≠ [].
Proof.
  intros Hs Hlt Hnil.
  set (cov := λ v : value raw, filter (λ x, py_eq_int v x = true) (seqZ 0 l)).
  assert (Hsub : seqZ 0 l ⊆+ ids ≫= cov).
  { apply NoDup_submseteq; [apply NoDup_seqZ|]. intros x Hx.
    destruct (existsb (λ v, py_eq_int v x) ids) eqn:Hex.
    - apply existsb_exists in Hex as (v & Hv%list_elem_of_In & Hvx).
      apply list_elem_of_bind. exists v. split; [|done].
      by apply list_elem_of_filter.
    - assert (x ∈ choices_of l ids) as Hin.
      { apply elem_of_choices_of. apply elem_of_seqZ in Hx. split; [lia | done]. }
      rewrite Hnil in Hin. by apply elem_of_nil in Hin. }
  apply submseteq_length in Hsub. rewrite length_seqZ in Hsub.
  assert (length (ids ≫= cov) ≤ length ids)%nat.
  { clear -Hs. induction ids as [|v ids IH]; [done|].
    cbn. rewrite length_app. pose proof (covered_short v l Hs). unfold cov in *. lia. }
  lia.
Qed.

Lemma pure_failure sp grids d docs g e v' :
  choice_total → eq_int_single →
  next_pure sp grids (d, docs, g) = (Raise e, v') →
  v'.1 = (d, docs) ∧
  match grids with
  | Some gr =>
      e = StopIteration ∧ grid_len gr ≤ Z.of_nat (length docs) ∨
      e = KeyError ∧ Z.of_nat (length docs) < grid_len gr ∧
        Exists (λ doc, doc !! chocolate_id = None) docs
  | None => e = ValueError ∧ Z.of_nat (length docs) < d
  end.
Proof.
  intros Htotal Hs. destruct grids as [gr|]; cbn [next_pure].
  - destruct (Z.geb_spec (Z.of_nat (length docs)) (grid_len gr)) as [Hfull|Hroom].
    { intros [= <- <-]. split; [done|]. left. split; [done | lia]. }
    destruct (doc_ids docs) as [ids|e0] eqn:Hids.
    + destruct (Htotal (choices_of (grid_len gr) ids)
                  (burn (Z.to_nat (Z.of_nat (length docs) - d)) g))
        as (x & g' & Hc & Hx).
      { apply choices_room; [done|]. by rewrite (doc_ids_length _ _ Hids). }
      rewrite Hc. apply elem_of_choices_of in Hx as [Hx _].
      destruct (grid_getitem_Ok gr x Hx) as (out & -> & _). discriminate.
    + intros [= <- <-]. split; [done|]. right.
      pose proof (doc_ids_Raise _ _ Hids) as ->.
      split; [done|]. split; [lia|]. by apply doc_ids_missing.
  - case_bool_decide as Hd.
    + destruct (rand_seq _ _). discriminate.
    + intros [= <- <-]. split; [done|]. split; [done | lia].
Qed.

(** X12.  What a call can raise over a store whose documents hold
    numbers only (plain integers, [numpy] integers, raw scalars; an id
    that cannot be hashed, which makes [set] raise, is not a [value]),
    once [choice] answers on non-empty lists with one of their members
    and a stored value equals at most one integer: on the grid
    [StopIteration], and only when the store counts at least the grid's
    size, or [KeyError], and only when it counts less and some document
    has no id; elsewhere [ValueError], and only when the counter is ahead
    of the store.  A call that raises leaves the counter and the store as
    they were. *)
Theorem failures_of_a_call self w e :
  choice_total → eq_int_single →
  (next (self, w)).1 = Raise e →
  drawn (next (self, w)).2.1 = drawn self ∧
  results (next (self, w)).2.2 = results w ∧
  match subspace_grids self with
  | Some gr =>
      e = StopIteration ∧ grid_len gr ≤ Z.of_nat (length (results w)) ∨
      e = KeyError ∧ Z.of_nat (length (results w)) < grid_len gr ∧
        Exists (λ doc, doc !! chocolate_id = None) (results w)
  | None => e = ValueError ∧ Z.of_nat (length (results w)) < drawn self
  end.
Proof.
  intros Htotal Hs.
  destruct (next (self, w)) as [r st'] eqn:Hn. cbn [fst snd]. intros ->.
  apply next_inv in Hn as [Hp _]. unfold view in Hp at 1. cbn [fst snd] in Hp.
  apply pure_failure in Hp as [Hv Hcase]; [|done..].
  unfold view in Hv. cbn [fst snd] in Hv. injection Hv as -> ->. done.
Qed.

End Properties.

(** * Burning, observed on the generator *)

Section Reconciliation.
Context {raw point seedval G : Type}.
Context `{!Scalar raw} `{!RandomState G raw seedval}.



End Reconciliation.

(** * The properties at the concrete instance *)

Module Checks.
Import Toy.

Lemma init_42 sp docs :
  __init__ sp (ArgSeed 42) (world docs) = (Ok (sampler sp), seeded docs).
Proof. reflexivity. Qed.

Lemma toy_index (a : list Z) (m x : Z) : a ≠ [] → pick_at a m x ∈ a.
Proof.
  intros Ha. apply list_elem_of_In, nth_In.
  assert (0 < Z.of_nat (length a)) by (destruct a; [done | cbn; lia]).
  pose proof (Z.mod_pos_bound m (Z.of_nat (length a))). lia.
Qed.

Lemma toy_choice_total : choice_total (G := Z).
Proof.
  intros a g Ha. change (rs_choice a g) with (pick a g). unfold pick.
  destruct a as [|x a']; [done|].
  eexists _, _. split; [reflexivity | by apply toy_index].
Qed.

Lemma toy_choice_member : choice_member (G := Z).
Proof.
  intros a g x g'. change (rs_choice a g) with (pick a g). unfold pick.
  destruct a as [|y a']; [done|]. intros Hc.
  apply pair_equal_spec in Hc as [Hx _]. injection Hx as <-. by apply toy_index.
Qed.


(** [exhaustion] at work: seven calls over the grid of size 6. *)
Lemma exhaustion_witness :
  ∃ pairs : list (Z * list Z),
    (calls 7 (sampler discrete_space, seeded [])).1 =
      (ok_pair <$> pairs) ++ [Raise StopIteration] ∧
    pairs.*1 ≡ₚ seqZ 0 6.
Proof.
  exact (exhaustion discrete_space (ArgSeed 42) (world [])
           (sampler discrete_space) (seeded [])
           toy_choice_total eq_refl eq_refl (init_42 _ _)).
Defined.

(** [exhausted_iff] at work: the first call over the empty store. *)
Lemma exhausted_iff_witness :
  ((next (sampler discrete_space, seeded [])).1 = Raise StopIteration ↔
     isdiscrete discrete_space = true ∧
     ∀ x, 0 ≤ x < 6 → recorded (raw := Z) x []) ∧
  ((next (sampler discrete_space, seeded [])).1 = Raise StopIteration →
     next (sampler discrete_space, seeded []) =
       (Raise StopIteration, (sampler discrete_space, seeded []))) ∧
  ((next (sampler discrete_space, seeded [])).1 ≠ Raise StopIteration →
     ∃ tok p self' w' e,
       next (sampler discrete_space, seeded []) = (Ok (tok, p), (self', w')) ∧
       results w' = [] ++ [e]).
Proof.
  exact (exhausted_iff (sampler discrete_space) (seeded [])
           toy_choice_total
           (init_exploring discrete_space (ArgSeed 42) (world []) _ _
              eq_refl (init_42 _ _))).
Defined.

(** [no_duplicates] at work: two samplers, one on its own generator and one
    on the process-wide one, taking turns over one store. *)
Lemma no_duplicates_witness :
  ∃ outs pool' w',
    interleave [0; 1; 1; 0; 1]%nat
      [sampler discrete_space; fresh_sampler discrete_space 0]
      (seeded []) = (outs, (pool', w')) ∧
    store_ids (results w') ([] ++ ok_ids outs) ∧
    NoDup ([] ++ ok_ids outs) ∧
    ∀ (self : Random (raw := Z) (point := list Z)) gr,
      subspace_grids self = Some gr →
      (∀ x, 0 ≤ x < grid_len gr → recorded x (results w')) →
      next (self, w') = (Raise StopIteration, (self, w')).
Proof.
  apply (no_duplicates [0; 1; 1; 0; 1]%nat
           [sampler discrete_space; fresh_sampler discrete_space 0]
           (seeded []) []).
  - apply toy_choice_member.
  - repeat constructor; by eexists.
  - reflexivity.
  - constructor.
Defined.

(** [continuous_ids] at work: three calls over the continuous space, and a
    call that finds two documents. *)
Lemma continuous_ids_witness :
  (∃ pts : list (list Z),
     length pts = 3%nat ∧
     (calls 3 (sampler continuous_space, seeded [])).1 = ok_pair <$> zip (seqZ 0 3) pts ∧
     store_ids (results (calls 3 (sampler continuous_space, seeded [])).2.2) (seqZ 0 3)) ∧
  token_of (raw := Z) 2 = token_of (Z.of_nat (length two_docs)).
Proof.
  split.
  - exact (proj1 continuous_ids continuous_space (ArgSeed 42) (world [])
             (sampler continuous_space) (seeded []) 3%nat eq_refl eq_refl (init_42 _ _)).
  - assert (next (sampler continuous_space, seeded two_docs) =
            (Ok (token_of 2, [856; 93]),
             (next (sampler continuous_space, seeded two_docs)).2)) as Hcall
      by (vm_compute; reflexivity).
    exact (proj2 continuous_ids (sampler continuous_space)
             (seeded two_docs) _ _ _ eq_refl Hcall).
Defined.

(** [drawn_counter] at work: calls interleaved with insertions by others. *)
Lemma drawn_counter_witness :
  drawn (next (sampler continuous_space, seeded [])).2.1 = 0 + 1 ∧
  StronglySorted Z.le
    (0 :: drawn_trace [Call; Insert ∅; Insert ∅; Call; Call]
            (sampler continuous_space, seeded [])).
Proof.
  split.
  - assert (next (sampler continuous_space, seeded []) =
            (Ok (token_of 0, [81; 33]), (next (sampler continuous_space, seeded [])).2))
      as Hcall by (vm_compute; reflexivity).
    exact (proj1 drawn_counter _ _ _ Hcall).
  - exact (proj2 drawn_counter continuous_space
             (ArgSeed 42) (world []) (sampler continuous_space) (seeded [])
             [Call; Insert ∅; Insert ∅; Call; Call] (init_42 _ _)).
Defined.

(** [discrete_draw] at work: the third draw over the grid of size 6. *)
Lemma discrete_draw_witness :
  ∃ ids sample out g',
    doc_ids two_docs = Ok ids ∧
    StronglySorted Z.lt (choices_of 6 ids) ∧
    (∀ x, x ∈ choices_of 6 ids ↔
          0 ≤ x < 6 ∧ ¬ ∃ v, v ∈ ids ∧ py_eq_int v x = true) ∧
    rs_choice (choices_of 6 ids) (burn 2 42) = (Ok sample, g') ∧
    token_of (raw := Z) 2 = {[ chocolate_id := VInt sample ]} ∧
    grid_getitem (ParameterGrid discrete_space) sample = Ok out ∧
    results (next (sampler discrete_space, seeded two_docs)).2.2 =
      two_docs ++ [entry_of discrete_space out sample] ∧
    [2; 4] = space_call discrete_space out.
Proof.
  assert (next (sampler discrete_space, seeded two_docs) =
          (Ok (token_of 2, [2; 4]), (next (sampler discrete_space, seeded two_docs)).2))
    as Hcall by (vm_compute; reflexivity).
  exact (discrete_draw (sampler discrete_space) (seeded two_docs)
           (ParameterGrid discrete_space) _ _ _ eq_refl Hcall).
Defined.

(** C7 as stated fails: the first call over the discrete space chooses
    grid index 1, whose assignment is [[166; 750]], and the point returned
    is [[1; 5]]. *)
Lemma returned_point_is_not_the_grid_item :
  ∃ tok p st' sample out,
    next (sampler discrete_space, seeded []) = (Ok (tok, p), st') ∧
    tok = token_of sample ∧
    grid_getitem (ParameterGrid discrete_space) sample = Ok out ∧
    p ≠ out.
Proof.
  exists (token_of 1), [1; 5], (next (sampler discrete_space, seeded [])).2, 1, [166; 750].
  split; [vm_compute; reflexivity|].
  split; [reflexivity|]. split; [reflexivity | discriminate].
Qed.

(** C9 as stated fails: construction with the seed [-1], a value of the
    third shape, raises. *)
Lemma construction_fails_on_a_refused_seed :
  __init__ discrete_space (ArgSeed (-1)) (world []) =
    (Raise ValueError, world []).
Proof. reflexivity. Qed.

(** [record_keys] at work: a dimension named like the id key. *)
Lemma record_keys_witness :
  ∃ id out,
    token_of (raw := Z) 0 = token_of id ∧
    results (next (sampler clash_space, seeded [])).2.2 =
      [] ++ [entry_of clash_space out id] ∧
    dom (entry_of clash_space out id) =
      list_to_set (names clash_space) ∪ {[chocolate_id]} ∧
    entry_of clash_space out id !! chocolate_id = Some (VInt id) ∧
    (chocolate_id ∈ names clash_space →
     ∃ r, dict_of_zip (names clash_space) out !! chocolate_id = Some (VRaw r)).
Proof.
  assert (next (sampler clash_space, seeded []) =
          (Ok (token_of 0, [81; 33]), (next (sampler clash_space, seeded [])).2))
    as Hcall by (vm_compute; reflexivity).
  apply (record_keys (sampler clash_space) (seeded []) (token_of 0) [81; 33]
           (next (sampler clash_space, seeded [])).2); [|exact Hcall].
  intros gr Hgr. discriminate Hgr.
Defined.

(** [enumeration_order_is_irrelevant] at work: the two documents
    enumerated last first, and first first. *)
Lemma enumeration_order_is_irrelevant_witness :
  (next (sampler discrete_space, seeded two_docs)).1 =
    (next (sampler discrete_space, seeded (reverse two_docs))).1 ∧
  drawn (next (sampler discrete_space, seeded two_docs)).2.1 =
    drawn (next (sampler discrete_space, seeded (reverse two_docs))).2.1 ∧
  generators (next (sampler discrete_space, seeded two_docs)).2.2 1%nat =
    generators (next (sampler discrete_space, seeded (reverse two_docs))).2.2 1%nat ∧
  results (next (sampler discrete_space, seeded two_docs)).2.2 ≡ₚ
    results (next (sampler discrete_space, seeded (reverse two_docs))).2.2.
Proof.
  apply (enumeration_order_is_irrelevant (sampler discrete_space)
           (seeded two_docs) (seeded (reverse two_docs))).
  - symmetry. apply reverse_Permutation.
  - reflexivity.
Defined.

(** [missing_id_burns_again] at work: three calls over a store whose one
    document has no id. *)
Lemma missing_id_burns_again_witness :
  (calls 3 (sampler discrete_space, seeded [∅])).1 = replicate 3 (Raise KeyError) ∧
  results (calls 3 (sampler discrete_space, seeded [∅])).2.2 = [∅] ∧
  drawn (calls 3 (sampler discrete_space, seeded [∅])).2.1 = 0 ∧
  generators (calls 3 (sampler discrete_space, seeded [∅])).2.2 1%nat = burn 3 42.
Proof.
  apply (missing_id_burns_again 3 (sampler discrete_space) (seeded [∅])
           (ParameterGrid discrete_space)).
  - reflexivity.
  - reflexivity.
  - apply Exists_cons_hd, lookup_empty.
Defined.

Lemma six_zeros :
  store_ids (raw := Z) (replicate 6 (token_of 0)) (replicate 6 0).
Proof. vm_compute. reflexivity. Qed.

(** [stop_is_by_count] at work: six documents that all carry the id 0 end
    the exploration of the grid of size 6. *)
Lemma stop_is_by_count_witness :
  next (sampler discrete_space, seeded (replicate 6 (token_of 0))) =
    (Raise StopIteration, (sampler discrete_space, seeded (replicate 6 (token_of 0)))).
Proof.
  exact (stop_is_by_count (sampler discrete_space) (seeded (replicate 6 (token_of 0)))
           (ParameterGrid discrete_space) (replicate 6 0)
           toy_choice_total eq_refl six_zeros).
Defined.

Lemma continuous_names_distinct : NoDup (names continuous_space).
Proof. apply (bool_decide_unpack _). vm_compute. reflexivity. Qed.

Lemma continuous_names_leave_the_id : chocolate_id ∉ names continuous_space.
Proof. apply (bool_decide_unpack _). vm_compute. reflexivity. Qed.

(** [stored_vector_reads_back] at work: the first document of the
    continuous space. *)
Lemma stored_vector_reads_back_witness :
  ∃ e out,
    results (next (sampler continuous_space, seeded [])).2.2 = [] ++ [e] ∧
    [81; 33] = space_call continuous_space out ∧
    (∀ i k v, names continuous_space !! i = Some k → out !! i = Some v →
              e !! k = Some (VRaw v)) ∧
    (subspace_grids (sampler continuous_space) = None →
     length out = length (names continuous_space)).
Proof.
  assert (next (sampler continuous_space, seeded []) =
          (Ok (token_of 0, [81; 33]), (next (sampler continuous_space, seeded [])).2))
    as Hcall by (vm_compute; reflexivity).
  exact (stored_vector_reads_back (sampler continuous_space) (seeded []) _ _ _
           continuous_names_distinct continuous_names_leave_the_id Hcall).
Defined.

(** [stored_keys_stop_at_the_vector] at work: three names, two values. *)
Lemma stored_keys_stop_at_the_vector_witness :
  ∃ x out,
    token_of (raw := Z) 1 = token_of x ∧
    grid_getitem (ParameterGrid short_space) x = Ok out ∧
    results (next (sampler short_space, seeded [])).2.2 =
      [] ++ [entry_of short_space out x] ∧
    dom (entry_of short_space out x) =
      list_to_set (take (length out) (names short_space)) ∪ {[chocolate_id]}.
Proof.
  assert (next (sampler short_space, seeded []) =
          (Ok (token_of 1, [833; 750]), (next (sampler short_space, seeded [])).2))
    as Hcall by (vm_compute; reflexivity).
  exact (stored_keys_stop_at_the_vector (sampler short_space) (seeded [])
           (ParameterGrid short_space) _ _ _ eq_refl Hcall).
Defined.

(** [counter_ahead_of_store] at work: a sampler that has drawn twice over
    an empty store. *)
Lemma counter_ahead_of_store_witness :
  (next (stale, seeded [])).1 = Raise ValueError ∧
  results (next (stale, seeded [])).2.2 = [] ∧
  drawn (next (stale, seeded [])).2.1 = 2 ∧
  generators (next (stale, seeded [])).2.2 1%nat = 42.
Proof.
  apply (counter_ahead_of_store stale (seeded [])). reflexivity.
Defined.

(** [shared_generator_is_burnt_twice] at work: after two calls, a second
    sampler on the same generator and one on a generator of its own. *)
Lemma shared_generator_is_burnt_twice_witness :
  (next (fresh_sampler continuous_space 1,
         (calls 2 (fresh_sampler continuous_space 1, twins)).2.2)).1 =
    Ok (token_of 2, space_call continuous_space (rand_seq 2 (burn (2 * (2 * 2)) 42)).1) ∧
  (next (fresh_sampler continuous_space 2,
         (calls 2 (fresh_sampler continuous_space 1, twins)).2.2)).1 =
    Ok (token_of 2, space_call continuous_space (rand_seq 2 (burn (2 * 2) 42)).1).
Proof.
  apply (shared_generator_is_burnt_twice continuous_space 1 2 (λ _, 42) 3 2);
    [reflexivity | discriminate | reflexivity].
Defined.

(** [turns_make_one_run] at work: two samplers of the continuous space
    taking seven turns, against seven calls of one. *)
Lemma turns_make_one_run_witness :
  (interleave [0; 1; 1; 0; 1; 0; 0]%nat
     (fresh_sampler continuous_space <$> [1; 2]%nat) twins).1 =
    (calls (length [0; 1; 1; 0; 1; 0; 0]%nat) (fresh_sampler continuous_space 1, twins)).1.
Proof.
  apply (turns_make_one_run continuous_space 42 [1; 2]%nat (λ _, 42) 3
           [0; 1; 1; 0; 1; 0; 0]%nat 1 (λ _, 42) 3).
  - reflexivity.
  - apply (bool_decide_unpack _). vm_compute. reflexivity.
  - reflexivity.
  - reflexivity.
  - repeat constructor.
Defined.

(** [continuous_run_is_the_stream] at work: three calls, six draws. *)
Lemma continuous_run_is_the_stream_witness :
  ∃ vecs : list (list Z),
    (calls 3 (fresh_sampler continuous_space 1, twins)).1 =
      ok_pair <$> zip (seqZ 0 3) (space_call continuous_space <$> vecs) ∧
    results (calls 3 (fresh_sampler continuous_space 1, twins)).2.2 =
      zip_with (entry_of continuous_space) vecs (seqZ 0 3) ∧
    length vecs = 3%nat ∧
    Forall (λ v, length v = 2%nat) vecs ∧
    concat vecs = (rand_seq (2 * 3) 42).1 ∧
    generators (calls 3 (fresh_sampler continuous_space 1, twins)).2.2 1%nat =
      burn (2 * 3) 42.
Proof.
  exact (continuous_run_is_the_stream continuous_space 1 (λ _, 42) 3 3 eq_refl).
Defined.

Lemma toy_eq_int_single : eq_int_single (raw := Z).
Proof.
  intros r x y. change (raw_eq_int r ?z) with (bool_decide (r = 1000 * z)).
  intros ->%bool_decide_eq_true ?%bool_decide_eq_true. lia.
Qed.

(** [failures_of_a_call] at work: a call over a store whose one document
    has no id. *)
Lemma failures_of_a_call_witness :
  drawn (next (sampler discrete_space, seeded [∅])).2.1 = 0 ∧
  results (next (sampler discrete_space, seeded [∅])).2.2 = [∅] ∧
  (KeyError = StopIteration ∧ grid_len (ParameterGrid discrete_space) ≤ 1 ∨
   KeyError = KeyError ∧ 1 < grid_len (ParameterGrid discrete_space) ∧
     Exists (λ doc : gmap string (value Z), doc !! chocolate_id = None) [∅]).
Proof.
  apply (failures_of_a_call (sampler discrete_space) (seeded [∅]) KeyError
           toy_choice_total toy_eq_int_single).
  vm_compute. reflexivity.
Defined.

(** ** The grid on numpy's generator *)

Lemma fourth_call :
  ok_ids (from_option (λ r, [r]) []
            ((calls 4 (Numpy.sampler, Numpy.seeded [])).1 !! 3%nat)) = [4].
Proof. vm_compute. reflexivity. Qed.

(** C1 (burning), on the grid.  With the generator the constructor
    builds, the space [a: {1, 2, 3}, b: {4, 5}] and the seed 42: the run
    from an empty store draws the ids 3, 5, 2, 4; a fresh sampler built
    with the same seed over the three documents of the first three calls
    burns three scalar draws and then draws the id 0, where call 4 of the
    run drew 4.  Three scalar draws take six words of the generator; the
    three [choice]s of the run took four. *)
Theorem burning_misses_on_a_grid :
  ok_ids (calls 4 (Numpy.sampler, Numpy.seeded [])).1 = [3; 5; 2; 4] ∧
  __init__ Numpy.grid6 (ArgSeed 42) (Numpy.world Numpy.three_docs) =
    (Ok Numpy.sampler, Numpy.seeded Numpy.three_docs) ∧
  ok_ids [(next (Numpy.sampler, Numpy.seeded Numpy.three_docs)).1] = [0] ∧
  (calls 4 (Numpy.sampler, Numpy.seeded [])).1 !! 3%nat ≠
    Some (next (Numpy.sampler, Numpy.seeded Numpy.three_docs)).1 ∧
  Numpy.pos (generators (calls 3 (Numpy.sampler, Numpy.seeded [])).2.2 1%nat) = 4%nat ∧
  Numpy.pos (burn 3 (Numpy.mt19937_seed 42)) = 6%nat.
Proof.
  assert (ok_ids [(next (Numpy.sampler, Numpy.seeded Numpy.three_docs)).1] = [0]) as Hfresh
    by (vm_compute; reflexivity).
  split; [vm_compute; reflexivity|].
  split; [vm_compute; reflexivity|].
  split; [exact Hfresh|].
  split; [|split; vm_compute; reflexivity].
  intros Heq. pose proof fourth_call as H4.
  rewrite Heq in H4. cbn [from_option] in H4.
  rewrite Hfresh in H4. discriminate H4.
Qed.

(** On the grid the turns of two samplers do not make one run either:
    seeded alike, they hand out 3, 5, 2, 0, 1, 4 in the turns below, and
    one of them alone 3, 5, 2, 4, 1, 0. *)
Lemma turns_differ_on_a_grid :
  ok_ids (interleave [0; 1; 1; 0; 1; 0; 0]%nat
            (fresh_sampler Numpy.grid6 <$> [1; 2]%nat) Numpy.seeded_twice).1 =
    [3; 5; 2; 0; 1; 4] ∧
  ok_ids (calls 7 (fresh_sampler Numpy.grid6 1, Numpy.seeded_twice)).1 =
    [3; 5; 2; 4; 1; 0].
Proof. split; vm_compute; reflexivity. Qed.

End Checks.
